(** * Marlin post-mortem analyzer: fault-dump parsing, CFSR decoding and
      report tables ([src/index.ts]).

    The development embeds the TypeScript program shallowly:
    - a JavaScript string is the list of its UTF-16 code units;
    - a JavaScript number is one of the values the program can produce:
      an integer-valued double, [Infinity] or [NaN];
    - a regular expression is the list of its atoms, run by a greedy
      backtracking matcher that tries every start position in turn;
    - [console.log], [console.error] and a rejected [await] are threaded
      through a small state-and-exception monad. *)

From Stdlib Require Import ZArith NArith List String Ascii Bool Lia.
Import ListNotations.

Local Open Scope Z_scope.

(** ** JavaScript values *)

Module JS.

(** A string is a sequence of 16-bit code units; [length] is the JavaScript
    [.length]. *)
Definition codeunit := N.
Definition jsstring := list codeunit.

(** String literals of the source, which are all ASCII. *)
Definition str (s : string) : jsstring :=
  List.map N_of_ascii (list_ascii_of_string s).

Definition chr (a : ascii) : codeunit := N_of_ascii a.

Fixpoint jsstring_eqb (a b : jsstring) : bool :=
  match a, b with
  | [], [] => true
  | x :: a', y :: b' => N.eqb x y && jsstring_eqb a' b'
  | _, _ => false
  end.

(** The number values that occur in the program: results of [parseInt] on
    digit strings and line numbers handed back by the symbolizer. *)
Inductive number :=
| Num (z : Z)
| Infinity
| NaN.

(** The Number value for a non-negative mathematical integer: round to 53
    significant bits, ties to even, overflowing to [Infinity]. *)
Definition roundToDouble (n : Z) : number :=
  if n <? 2 ^ 53 then Num n
  else
    let e := Z.log2 n - 52 in
    let q := Z.shiftr n e in
    let r := n - Z.shiftl q e in
    let half := 2 ^ (e - 1) in
    let q' := if (half <? r) || ((r =? half) && Z.odd q) then q + 1 else q in
    let v := Z.shiftl q' e in
    if 2 ^ 1024 <=? v then Infinity else Num v.

(** Value of a digit in the given radix, if the code unit is one. *)
Definition digitValue (radix : Z) (c : codeunit) : option Z :=
  let c := Z.of_N c in
  let v :=
    if (48 <=? c) && (c <=? 57) then Some (c - 48)
    else if (65 <=? c) && (c <=? 90) then Some (c - 55)
    else if (97 <=? c) && (c <=? 122) then Some (c - 87)
    else None in
  match v with
  | Some d => if d <? radix then Some d else None
  | None => None
  end.

(** Longest prefix of radix digits, as [parseInt] scans it. *)
Fixpoint digitPrefix (radix : Z) (s : jsstring) : list Z :=
  match s with
  | [] => []
  | c :: s' =>
      match digitValue radix c with
      | Some d => d :: digitPrefix radix s'
      | None => []
      end
  end.

Definition mathInt (radix : Z) (ds : list Z) : Z :=
  fold_left (fun acc d => acc * radix + d) ds 0.

(** [parseInt(s, radix)] for a string without leading white space, sign or
    [0x] prefix, which is what the capture groups of the two line patterns
    hold: the digits are read up to the first code unit that is not one,
    no digit at all gives [NaN], and the integer is rounded to a double. *)
Definition parseInt (s : jsstring) (radix : Z) : number :=
  match digitPrefix radix s with
  | [] => NaN
  | ds => roundToDouble (mathInt radix ds)
  end.

(** [ToInt32]: the integer modulo 2^32, read as a signed 32-bit value;
    [Infinity] and [NaN] become 0. *)
Definition toUint32 (x : number) : Z :=
  match x with
  | Num z => z mod 2 ^ 32
  | Infinity | NaN => 0
  end.

Definition int32OfBits (u : Z) : Z :=
  if 2 ^ 31 <=? u then u - 2 ^ 32 else u.

(** [a & b]: both operands go through [ToInt32], the 32-bit patterns are
    and-ed and the result is read back as a signed 32-bit integer. *)
Definition bitAnd (a b : number) : Z :=
  int32OfBits (Z.land (toUint32 a) (toUint32 b)).

(** Truthiness of a number produced by [&]. *)
Definition truthy (z : Z) : bool := negb (z =? 0).

Definition digitChar (d : Z) : codeunit :=
  Z.to_N (if d <? 10 then 48 + d else 87 + d).

Fixpoint digitsOf (fuel : nat) (radix n : Z) (acc : jsstring) : jsstring :=
  match fuel with
  | O => acc
  | S f =>
      let acc' := digitChar (n mod radix) :: acc in
      if n / radix =? 0 then acc' else digitsOf f radix (n / radix) acc'
  end.

(** Digits of a non-negative integer, most significant first. *)
Definition natToString (radix n : Z) : jsstring :=
  digitsOf (S (Z.to_nat (Z.log2 n))) radix n [].

Definition intToString (radix z : Z) : jsstring :=
  if z <? 0 then chr "-" :: natToString radix (- z) else natToString radix z.

(** [num.toString(16)]; an integer-valued double prints all its digits. *)
Definition toString16 (x : number) : jsstring :=
  match x with
  | Num z => intToString 16 z
  | Infinity => str "Infinity"
  | NaN => str "NaN"
  end.

(** [String(num)] as a template literal applies it.  An integer below 2^53
    prints its decimal digits.  From 2^53 on JavaScript prints the shortest
    digits that read back as the same double, followed by zeros, and from
    10^21 on the exponent notation; these strings are not modelled and are
    taken as the parameter [expo]. *)
Definition toString10 (expo : Z -> jsstring) (x : number) : jsstring :=
  match x with
  | Num z => if Z.abs z <? 2 ^ 53 then intToString 10 z else expo z
  | Infinity => str "Infinity"
  | NaN => str "NaN"
  end.

Definition spaces (n : nat) : jsstring := repeat (chr " ") n.

(** [s.padEnd(n, ' ')] and [s.padStart(n, '0')]. *)
Definition padEnd (s : jsstring) (n : nat) : jsstring :=
  s ++ spaces (n - List.length s).

Definition padStart0 (s : jsstring) (n : nat) : jsstring :=
  repeat (chr "0") (n - List.length s) ++ s.

(** [toUpperCase] on ASCII letters.  The strings it is applied to are the
    literals LR, PC, CFSR, MMAR, BFAR and register names matched by
    [[A-Za-z0-9]+], all ASCII; other code units are left alone here. *)
Definition upperUnit (c : codeunit) : codeunit :=
  if ((97 <=? c) && (c <=? 122))%N then (c - 32)%N else c.

Definition toUpperCase (s : jsstring) : jsstring := List.map upperUnit s.

(** [s.split('\n')]: never empty, one more piece than there are newlines. *)
Fixpoint splitLines (s : jsstring) : list jsstring :=
  match s with
  | [] => [[]]
  | c :: s' =>
      if (c =? 10)%N then [] :: splitLines s'
      else
        match splitLines s' with
        | l :: ls => (c :: l) :: ls
        | [] => [[c]]
        end
  end.

End JS.

Import JS.

(** ** Regular expressions

    The fragment the program uses: anchors, and one-character matchers
    (literals, classes) taken once or under a greedy [*] or [+], possibly
    inside a capture group.  Every group of the source patterns encloses
    exactly one quantified class. *)

Module RegExp.

Inductive quantifier := Once | ZeroOrMore | OneOrMore.

Inductive atom :=
| Bol                                             (* ^ *)
| Eol                                             (* $ *)
| Class (p : codeunit -> bool) (q : quantifier)   (* x, [..], [..]*, [..]+ *)
| Capture (p : codeunit -> bool) (q : quantifier) (* ([..]+) *).

Definition regex := list atom.

(** Greedy repetition with backtracking: take one more code unit while the
    class accepts it, and give characters back, one at a time, when the
    rest of the pattern (the continuation [k]) fails. *)
Fixpoint greedy {R : Type} (p : codeunit -> bool)
    (k : jsstring -> jsstring -> option R)
    (taken s : jsstring) : option R :=
  match s with
  | c :: s' =>
      if p c then
        match greedy p k (taken ++ [c]) s' with
        | Some r => Some r
        | None => k taken s
        end
      else k taken s
  | [] => k taken []
  end.

Definition quantified {R : Type} (p : codeunit -> bool) (q : quantifier)
    (k : jsstring -> jsstring -> option R) (s : jsstring) : option R :=
  match q with
  | Once =>
      match s with
      | c :: s' => if p c then k [c] s' else None
      | [] => None
      end
  | ZeroOrMore => greedy p k [] s
  | OneOrMore =>
      greedy p (fun m rest => match m with [] => None | _ => k m rest end) [] s
  end.

(** Match the atoms at the current position [pos] of the input; the result
    is the captures, in order, and the input left after the match. *)
Fixpoint matchHere (re : regex) (pos : nat) (s : jsstring)
    (caps : list jsstring) : option (list jsstring * jsstring) :=
  match re with
  | [] => Some (caps, s)
  | Bol :: re' => if Nat.eqb pos 0 then matchHere re' pos s caps else None
  | Eol :: re' =>
      match s with
      | [] => matchHere re' pos s caps
      | _ :: _ => None
      end
  | Class p q :: re' =>
      quantified p q
        (fun m rest => matchHere re' (pos + List.length m) rest caps) s
  | Capture p q :: re' =>
      quantified p q
        (fun m rest => matchHere re' (pos + List.length m) rest (caps ++ [m])) s
  end.

Record matchResult := {
  index : nat;                 (* where the match starts *)
  groups : list jsstring;      (* match[1], match[2], ... *)
  after : jsstring             (* input following the match *)
}.

(** [pattern.exec(line)] without the [g] flag: the first start position,
    from 0 on, at which the pattern matches. *)
Fixpoint search (re : regex) (pos : nat) (s : jsstring) : option matchResult :=
  match matchHere re pos s [] with
  | Some (caps, rest) =>
      Some {| index := pos; groups := caps; after := rest |}
  | None =>
      match s with
      | [] => None
      | _ :: s' => search re (S pos) s'
      end
  end.

Definition exec (re : regex) (s : jsstring) : option matchResult :=
  search re 0 s.

(** [match[i]] for [i >= 1]. *)
Definition group (m : matchResult) (i : nat) : jsstring :=
  nth (i - 1) (groups m) [].

(** [s.replace(re, replacement)] without the [g] flag and with a
    replacement free of [$]: the first match is replaced. *)
Definition replace (re : regex) (replacement s : jsstring) : jsstring :=
  match exec re s with
  | Some m => firstn (index m) s ++ replacement ++ after m
  | None => s
  end.

(** Literals.  Under the [i] flag two code units match when their
    canonical forms agree; [Canonicalize] maps an ASCII letter to its
    upper case and never maps a code unit from 128 on into ASCII, so
    against the ASCII literals of the source [upperUnit] decides it. *)
Definition lit (a : ascii) : atom := Class (N.eqb (chr a)) Once.

Definition liti (a : ascii) : atom :=
  Class (fun c => N.eqb (upperUnit c) (upperUnit (chr a))) Once.

Definition lits (s : string) : regex := List.map lit (list_ascii_of_string s).
Definition litsi (s : string) : regex := List.map liti (list_ascii_of_string s).

(** Character classes of the source patterns. *)
Definition inRange (lo hi : ascii) (c : codeunit) : bool :=
  ((chr lo <=? c) && (c <=? chr hi))%N.

(** [\d] *)
Definition digit (c : codeunit) : bool := inRange "0" "9" c.

(** [[0-9A-Fa-f]] *)
Definition hexDigit (c : codeunit) : bool :=
  inRange "0" "9" c || inRange "A" "F" c || inRange "a" "f" c.

(** [[A-Za-z0-9]] *)
Definition alnum (c : codeunit) : bool :=
  inRange "A" "Z" c || inRange "a" "z" c || inRange "0" "9" c.

(** [[^@]] *)
Definition notAt (c : codeunit) : bool := negb (N.eqb c (chr "@")).

(** [\s]: WhiteSpace and LineTerminator code units. *)
Definition whiteSpace (c : codeunit) : bool :=
  ((9 <=? c) && (c <=? 13) || (c =? 32) || (c =? 160) || (c =? 5760)
   || (8192 <=? c) && (c <=? 8202) || (c =? 8232) || (c =? 8233)
   || (c =? 8239) || (c =? 8287) || (c =? 12288) || (c =? 65279))%N.

End RegExp.

Import RegExp.

(** ** Console output and rejected promises *)

Record console := {
  stdout : list jsstring;   (* console.log: the report *)
  stderr : list jsstring    (* console.error: the diagnostics *)
}.

Inductive outcome (A : Type) :=
| Ok (a : A)
| Throw (e : jsstring).

Arguments Ok {A} a.
Arguments Throw {A} e.

Definition M (A : Type) : Type := console -> outcome A * console.

Definition ret {A : Type} (a : A) : M A := fun c => (Ok a, c).

Definition bind {A B : Type} (m : M A) (f : A -> M B) : M B :=
  fun c =>
    match m c with
    | (Ok a, c') => f a c'
    | (Throw e, c') => (Throw e, c')
    end.

Notation "x <- m ;; k" := (bind m (fun x => k))
  (at level 61, m at next level, right associativity).
Notation "m ;;; k" := (bind m (fun _ => k))
  (at level 61, right associativity).

Definition console_log (s : jsstring) : M unit :=
  fun c => (Ok tt, {| stdout := stdout c ++ [s]; stderr := stderr c |}).

Definition console_error (s : jsstring) : M unit :=
  fun c => (Ok tt, {| stdout := stdout c; stderr := stderr c ++ [s] |}).

(** ** The program *)

Definition row := list jsstring.

Record Addr2LineResult := {
  filePath : jsstring;
  fileName : jsstring;
  line : number;
  function : jsstring
}.

Record BacktraceInfo := {
  position : number;
  name : jsstring;
  fnAddress : number;
  fnOffset : number;
  pc : number
}.

(** The object [{...a2l, position, name, fnAddress, fnOffset, pc}]. *)
Record Frame := {
  a2l : Addr2LineResult;
  info : BacktraceInfo
}.

Record RegisterInfo := {
  register : jsstring;
  value : number
}.

(** What awaiting [addr2Line(address)] can do: yield a result, yield
    [undefined] (the second output line does not have the shape
    [file:line]), or throw because the child process failed. *)
Inductive lookup :=
| Resolved (r : Addr2LineResult)
| Unresolved
| Rejected (e : jsstring).

(** The constants exported by [./cfsr], which the program imports as
    [CFRS]; that module is not part of the sources at hand, so the
    constants are parameters of the development. *)
Record cfsr := {
  MEMFAULTSR_MASK : Z;
  MMARVALID_MASK : Z;
  MLSPERR_MASK : Z;
  MSTKERR_MASK : Z;
  MUNSTKERR_MASK : Z;
  DACCVIOL_MASK : Z;
  IACCVIOL_MASK : Z;
  BUSFAULTSR_MASK : Z;
  BFARVALID_MASK : Z;
  LSPERR_MASK : Z;
  STKERR_MASK : Z;
  UNSTKERR_MASK : Z;
  IMPRECISERR_MASK : Z;
  PRECISERR_MASK : Z;
  IBUSERR_MASK : Z;
  USAGEFAULTSR_MASK : Z;
  DIVBYZERO_MASK : Z;
  UNALIGNED_MASK : Z;
  NOCP_MASK : Z;
  INVPC_MASK : Z;
  INVSTATE_MASK : Z;
  UNDEFINSTR_MASK : Z
}.

(** [numToHex] *)
Definition numToHex (num : number) : jsstring :=
  str "0x" ++ padStart0 (toString16 num) 8.

(** The pattern of [parseRegisterLine]:
    [/^([A-Za-z0-9]+)\s*:\s+0x([0-9A-Fa-f]+)$/] *)
Definition registerPattern : regex :=
  [Bol; Capture alnum OneOrMore; Class whiteSpace ZeroOrMore]
  ++ lits ":" ++ [Class whiteSpace OneOrMore] ++ lits "0x"
  ++ [Capture hexDigit OneOrMore; Eol].

(** [parseRegisterLine] *)
Definition parseRegisterLine (line : jsstring) : option RegisterInfo :=
  match exec registerPattern line with
  | None => None
  | Some m =>
      let register := group m 1 in
      let value := parseInt (group m 2) 16 in
      Some {| register := register; value := value |}
  end.

(** The pattern of [parseBacktraceLine]:
    [/#(\d+) : ([^@]+)@0x([0-9A-Fa-f]+)\+(\d+) PC:0x([0-9A-Fa-f]+)/] *)
Definition backtracePattern : regex :=
  lits "#" ++ [Capture digit OneOrMore] ++ lits " : "
  ++ [Capture notAt OneOrMore] ++ lits "@0x"
  ++ [Capture hexDigit OneOrMore] ++ lits "+"
  ++ [Capture digit OneOrMore] ++ lits " PC:0x"
  ++ [Capture hexDigit OneOrMore].

(** The fields read off a match, before the symbolizer is asked. *)
Definition backtraceInfo (m : matchResult) : BacktraceInfo :=
  {| position := parseInt (group m 1) 10;
     name := group m 2;
     fnAddress := parseInt (group m 3) 16;
     fnOffset := parseInt (group m 4) 10;
     pc := parseInt (group m 5) 16 |}.

(** The line normalisation of [main]: [line.replace(/^recv: /i, '')]. *)
Definition recvPattern : regex := Bol :: litsi "recv: ".

Definition normalize (line : jsstring) : jsstring :=
  replace recvPattern [] line.

(** [findRegister] of [printRegisters]: [Array.prototype.find] returns the
    first element the predicate accepts. *)
Definition findRegister (registers : list RegisterInfo) (reg : jsstring)
    : option RegisterInfo :=
  find (fun r => jsstring_eqb (toUpperCase (register r)) (toUpperCase reg))
       registers.

(** Column widths of [printAsTable].  [columnWidths] is a JavaScript array:
    reading past its end (or a hole) gives [undefined], writing past its
    end extends it, leaving holes. *)
Definition widths := list (option nat).

Definition getAt (w : widths) (i : nat) : option nat :=
  match nth_error w i with
  | Some (Some v) => Some v
  | _ => None
  end.

Fixpoint setAt (i : nat) (v : nat) (w : widths) : widths :=
  match i, w with
  | O, [] => [Some v]
  | O, _ :: w' => Some v :: w'
  | S i', [] => None :: setAt i' v []
  | S i', x :: w' => x :: setAt i' v w'
  end.

(** The inner loop of the first pass, from column [i] on. *)
Fixpoint measureLine (cells : row) (i : nat) (w : widths) : widths :=
  match cells with
  | [] => w
  | cell :: rest =>
      let len := List.length cell in
      let w' :=
        match getAt w i with
        | None => setAt i len w
        | Some old => if Nat.ltb old len then setAt i len w else w
        end in
      measureLine rest (S i) w'
  end.

Definition columnWidths (lines : list row) : widths :=
  fold_left (fun w l => measureLine l 0 w) lines [].

(** The inner loop of the second pass.  [len + 2] is [NaN] for an
    undefined width, and [padEnd(NaN)] pads nothing. *)
Fixpoint formatLine (w : widths) (cells : row) (i : nat) (s : jsstring)
    : jsstring :=
  match cells with
  | [] => s
  | entry :: rest =>
      let padded :=
        match getAt w i with
        | Some len => padEnd entry (len + 2)
        | None => entry
        end in
      formatLine w rest (S i) (s ++ padded)
  end.

Fixpoint logLines (ls : list jsstring) : M unit :=
  match ls with
  | [] => ret tt
  | l :: ls' => console_log l ;;; logLines ls'
  end.

(** The text [printAsTable] writes, one string per [console.log]. *)
Definition renderTable (lines : list row) : list jsstring :=
  let columnWidths := columnWidths lines in
  List.map (fun l => formatLine columnWidths l 0 []) lines.

(** [printAsTable] *)
Definition printAsTable (lines : list row) : M unit :=
  logLines (renderTable lines).

(** ** The symbolizer process

    [addr2Line] runs the [addr2line] executable and reads the two lines it
    prints.  The child process ([execAsync]) and Node's [path.basename] are
    parameters. *)

Module Symbolizer.

(** What awaiting [execAsync(cmd)] gives: the text the process printed, or
    an error when it could not be run or failed. *)
Inductive execResult :=
| Stdout (stdout : jsstring)
| ExecError (e : jsstring).

(** [.] without the [s] flag: any code unit but a line terminator. *)
Definition notLineTerminator (c : codeunit) : bool :=
  negb ((c =? 10) || (c =? 13) || (c =? 8232) || (c =? 8233))%N.

(** The pattern of [addr2Line]: [/(.+):(\d+)/] *)
Definition fileLinePattern : regex :=
  [Capture notLineTerminator OneOrMore] ++ lits ":"
  ++ [Capture digit OneOrMore].

(** [stdout.split(/\r?\n/)]: the text is cut at every line feed, and a
    carriage return right before the line feed belongs to the cut. *)
Fixpoint splitNewlines (s : jsstring) : list jsstring :=
  match s with
  | [] => [[]]
  | c :: s' =>
      let cons_head :=
        match splitNewlines s' with
        | l :: ls => (c :: l) :: ls
        | [] => [[c]]
        end in
      if (c =? 10)%N then [] :: splitNewlines s'
      else if (c =? 13)%N then
        match s' with
        | d :: s'' => if (d =? 10)%N then [] :: splitNewlines s'' else cons_head
        | [] => cons_head
        end
      else cons_head
  end.

(** The command line of [addr2Line]. *)
Definition command (addr2linePath elfPath : jsstring) (address : number)
    : jsstring :=
  addr2linePath ++ str " -e " ++ elfPath ++ str " -f -C "
  ++ toString16 address.

(** The reading of the output.  [lines[1]] is [undefined] when the output
    has one line only, and [exec] then runs on the string [undefined]. *)
Definition readOutput (basename : jsstring -> jsstring) (stdout : jsstring)
    : option Addr2LineResult :=
  let lines := splitNewlines stdout in
  let fn := nth 0 lines [] in
  let fileLine := nth 1 lines (str "undefined") in
  match exec fileLinePattern fileLine with
  | None => None
  | Some m =>
      let filePath := group m 1 in
      let line := group m 2 in
      let fileName := basename filePath in
      Some {| filePath := filePath;
              fileName := match fileName with [] => filePath | _ => fileName end;
              line := parseInt line 10;
              function := fn |}
  end.

(** [addr2Line] *)
Definition addr2Line (execAsync : jsstring -> execResult)
    (basename : jsstring -> jsstring) (addr2linePath elfPath : jsstring)
    (address : number) : lookup :=
  match execAsync (command addr2linePath elfPath address) with
  | ExecError e => Rejected e
  | Stdout stdout =>
      match readOutput basename stdout with
      | Some r => Resolved r
      | None => Unresolved
      end
  end.

End Symbolizer.

(** ** Reading the fault log from the terminal *)

(** [inputLines.join('\n')] *)
Fixpoint joinLines (inputLines : list jsstring) : jsstring :=
  match inputLines with
  | [] => []
  | [l] => l
  | l :: rest => l ++ 10%N :: joinLines rest
  end.

(** [readMultilineInput], over the lines that [rl.question] hands to its
    callback one after the other; [inputLines] is the array filled so far.
    Reading stops at the first empty line.  When the input ends before an
    empty line the promise is never resolved, which is [None]. *)
Fixpoint readMultilineInput (input inputLines : list jsstring)
    : option jsstring :=
  match input with
  | [] => None
  | l :: rest =>
      match l with
      | [] => Some (joinLines inputLines)
      | _ :: _ => readMultilineInput rest (inputLines ++ [l])
      end
  end.

(** ** Instances to run the program on

    The ARMv7-M layout of the CFSR and two symbolizers.  They only serve to
    evaluate the definitions on concrete inputs; no general theorem depends
    on them. *)

Definition armv7m : cfsr := {|
  MEMFAULTSR_MASK := 0xFF;
  MMARVALID_MASK := 0x80;
  MLSPERR_MASK := 0x20;
  MSTKERR_MASK := 0x10;
  MUNSTKERR_MASK := 0x08;
  DACCVIOL_MASK := 0x02;
  IACCVIOL_MASK := 0x01;
  BUSFAULTSR_MASK := 0xFF00;
  BFARVALID_MASK := 0x8000;
  LSPERR_MASK := 0x2000;
  STKERR_MASK := 0x1000;
  UNSTKERR_MASK := 0x0800;
  IMPRECISERR_MASK := 0x0400;
  PRECISERR_MASK := 0x0200;
  IBUSERR_MASK := 0x0100;
  USAGEFAULTSR_MASK := 0xFFFF0000;
  DIVBYZERO_MASK := 0x02000000;
  UNALIGNED_MASK := 0x01000000;
  NOCP_MASK := 0x00080000;
  INVPC_MASK := 0x00040000;
  INVSTATE_MASK := 0x00020000;
  UNDEFINSTR_MASK := 0x00010000
|}.

(** A symbolizer that resolves nothing. *)
Definition noSymbols (address : number) : lookup := Unresolved.

(** A symbolizer that knows one address. *)
Definition oneSymbol (address : number) : lookup :=
  match address with
  | Num 0x1C442 =>
      Resolved {| filePath := str "/src/gcode.cpp";
                  fileName := str "gcode.cpp";
                  line := Num 339;
                  function := str "process()" |}
  | _ => Unresolved
  end.

(** An [execAsync] that prints the same two lines for every command, and
    the POSIX [path.basename] on paths that do not end in a slash. *)
Definition sampleExec (cmd : jsstring) : Symbolizer.execResult :=
  Symbolizer.Stdout
    (str "GcodeSuite::process()" ++ [10%N] ++ str "/src/gcode/gcode.cpp:339"
     ++ [10%N]).

Fixpoint afterLastSlash (s : jsstring) : jsstring :=
  match s with
  | [] => []
  | c :: s' =>
      if existsb (N.eqb 47) s' then afterLastSlash s'
      else if (c =? 47)%N then s' else s
  end.

(** A symbolizer whose process cannot be started. *)
Definition throwingSymbols (address : number) : lookup :=
  Rejected (str "Error: spawn arm-none-eabi-addr2line ENOENT").

Definition noExpo (z : Z) : jsstring := [].

Definition emptyConsole : console := {| stdout := []; stderr := [] |}.

Section Analyzer.

(** The exports of [./cfsr]. *)
Variable CFRS : cfsr.

(** The external symbolizer behind [addr2Line]: the [addr2line] child
    process and the reading of its two output lines. *)
Variable addr2Line : number -> lookup.

(** [String(num)] for the integers from 2^53 on: shortest round-trip
    digits, or exponent notation. *)
Variable expo : Z -> jsstring.

(** [await addr2Line(address)] *)
Definition awaitAddr2Line (address : number) : M (option Addr2LineResult) :=
  fun c =>
    match addr2Line address with
    | Resolved r => (Ok (Some r), c)
    | Unresolved => (Ok None, c)
    | Rejected e => (Throw e, c)
    end.

(** [parseBacktraceLine] *)
Definition parseBacktraceLine (line : jsstring) : M (option Frame) :=
  match exec backtracePattern line with
  | None => ret None
  | Some m =>
      let bt := backtraceInfo m in
      r <- awaitAddr2Line (pc bt) ;;
      match r with
      | None =>
          console_error (str "Failed to lookup address: " ++ toString16 (pc bt)) ;;;
          ret None
      | Some r => ret (Some {| a2l := r; info := bt |})
      end
  end.

(** The [if (lr) { ... }] and [if (pc) { ... }] blocks of [printRegisters],
    which differ in the label only. *)
Definition symbolRow (label : jsstring) (reg : option RegisterInfo)
    (out : list row) : M (list row) :=
  match reg with
  | None => ret out
  | Some reg =>
      r <- awaitAddr2Line (value reg) ;;
      match r with
      | None =>
          console_error
            (str "Failed to lookup " ++ label ++ str ": "
             ++ toString16 (value reg)) ;;;
          ret out
      | Some r =>
          ret (out ++ [[label; numToHex (value reg); function r;
                        fileName r ++ str ":" ++ toString10 expo (line r)]])
      end
  end.

(** [checkFlag] of [printRegisters]; [out] is the table under
    construction. *)
Definition checkFlag (cfsr : number) (flag : Z) (name : jsstring)
    (extraColumnsIfSet : row) (out : list row) : list row :=
  if truthy (bitAnd cfsr (Num flag))
  then out ++ [[str ""; name] ++ extraColumnsIfSet]
  else out.

Definition addressColumn (label : string) (reg : option RegisterInfo) : row :=
  match reg with
  | Some reg => [str label ++ numToHex (value reg)]
  | None => []
  end.

(** The three [if (cfsr & ...)] blocks of [printRegisters]. *)
Definition memoryManagementFault (cfsr : number) (mmar : option RegisterInfo)
    (out : list row) : list row :=
  if truthy (bitAnd cfsr (Num (MEMFAULTSR_MASK CFRS))) then
    let out := out ++ [[str ""; str "Memory Management Fault"]] in
    let out := checkFlag cfsr (MMARVALID_MASK CFRS) (str "MMARVALID")
                 (addressColumn "MMAR: " mmar) out in
    let out := checkFlag cfsr (MLSPERR_MASK CFRS) (str "MLSPERR") [] out in
    let out := checkFlag cfsr (MSTKERR_MASK CFRS) (str "MSTKERR") [] out in
    let out := checkFlag cfsr (MUNSTKERR_MASK CFRS) (str "MUNSTKERR") [] out in
    let out := checkFlag cfsr (DACCVIOL_MASK CFRS) (str "DACCVIOL") [] out in
    let out := checkFlag cfsr (IACCVIOL_MASK CFRS) (str "IACCVIOL") [] out in
    out
  else out.

Definition busFault (cfsr : number) (bfar : option RegisterInfo)
    (out : list row) : list row :=
  if truthy (bitAnd cfsr (Num (BUSFAULTSR_MASK CFRS))) then
    let out := out ++ [[str ""; str "Bus Fault"]] in
    let out := checkFlag cfsr (BFARVALID_MASK CFRS) (str "BFARVALID")
                 (addressColumn "BFAR: " bfar) out in
    let out := checkFlag cfsr (LSPERR_MASK CFRS) (str "LSPERR") [] out in
    let out := checkFlag cfsr (STKERR_MASK CFRS) (str "STKERR") [] out in
    let out := checkFlag cfsr (UNSTKERR_MASK CFRS) (str "UNSTKERR") [] out in
    let out := checkFlag cfsr (IMPRECISERR_MASK CFRS) (str "IMPRECISERR") [] out in
    let out := checkFlag cfsr (PRECISERR_MASK CFRS) (str "PRECISERR") [] out in
    let out := checkFlag cfsr (IBUSERR_MASK CFRS) (str "IBUSERR") [] out in
    out
  else out.

Definition usageFault (cfsr : number) (out : list row) : list row :=
  if truthy (bitAnd cfsr (Num (USAGEFAULTSR_MASK CFRS))) then
    let out := out ++ [[str ""; str "Usage Fault"]] in
    let out := checkFlag cfsr (DIVBYZERO_MASK CFRS) (str "DIVBYZERO") [] out in
    let out := checkFlag cfsr (UNALIGNED_MASK CFRS) (str "UNALIGNED") [] out in
    let out := checkFlag cfsr (NOCP_MASK CFRS) (str "NOCP") [] out in
    let out := checkFlag cfsr (INVPC_MASK CFRS) (str "INVPC") [] out in
    let out := checkFlag cfsr (INVSTATE_MASK CFRS) (str "INVSTATE") [] out in
    let out := checkFlag cfsr (UNDEFINSTR_MASK CFRS) (str "UNDEFINSTR") [] out in
    out
  else out.

(** The [if (cfsrReg) { ... }] block: the decoder of the CFSR. *)
Definition decodeCfsr (cfsrReg mmar bfar : option RegisterInfo)
    (out : list row) : list row :=
  match cfsrReg with
  | Some cfsrReg =>
      let cfsr := value cfsrReg in
      let out := memoryManagementFault cfsr mmar out in
      let out := busFault cfsr bfar out in
      let out := usageFault cfsr out in
      out
  | None => out
  end.

(** The table [printRegisters] builds, up to the call of [printAsTable]. *)
Definition registerRows (registers : list RegisterInfo) : M (list row) :=
  let out := [[str "Register"; str "Value"]] in
  let lr := findRegister registers (str "LR") in
  let pc := findRegister registers (str "PC") in
  out <- symbolRow (str "LR") lr out ;;
  out <- symbolRow (str "PC") pc out ;;
  let mmar := findRegister registers (str "MMAR") in
  let bfar := findRegister registers (str "BFAR") in
  let cfsrReg := findRegister registers (str "CFSR") in
  ret (decodeCfsr cfsrReg mmar bfar out).

(** [printRegisters] *)
Definition printRegisters (registers : list RegisterInfo) : M unit :=
  out <- registerRows registers ;;
  printAsTable out.

(** The register loop of [main]. *)
Fixpoint parseRegisters (lines : list jsstring) : list RegisterInfo :=
  match lines with
  | [] => []
  | l :: rest =>
      match parseRegisterLine l with
      | Some register => register :: parseRegisters rest
      | None => parseRegisters rest
      end
  end.

(** The row [main] pushes for a symbolized frame. *)
Definition frameRow (bt : Frame) : row :=
  [ str "#" ++ toString10 expo (position (info bt));
    function (a2l bt)
      ++ (if jsstring_eqb (name (info bt)) (str "unknown") then str ""
          else str " (" ++ name (info bt) ++ str ")");
    str "@ " ++ numToHex (fnAddress (info bt)) ++ str " + "
      ++ toString10 expo (fnOffset (info bt));
    str "PC:" ++ numToHex (pc (info bt));
    fileName (a2l bt) ++ str ":" ++ toString10 expo (line (a2l bt)) ].

(** The initial value of [btLines]. *)
Definition btHeader : list row :=
  [ []; [str "Backtrace"];
    [str "#"; str "Function"; str "Address"; str "PC"; str "File:Line"] ].

(** The backtrace loop of [main], with [btLines] as accumulator. *)
Fixpoint backtraceLoop (lines : list jsstring) (btLines : list row)
    : M (list row) :=
  match lines with
  | [] => ret btLines
  | l :: rest =>
      bt <- parseBacktraceLine l ;;
      match bt with
      | Some bt => backtraceLoop rest (btLines ++ [frameRow bt])
      | None => backtraceLoop rest btLines
      end
  end.

Definition backtraceRows (lines : list jsstring) : M (list row) :=
  backtraceLoop lines btHeader.

(** [main], from the fault text on (reading the arguments and the fault
    text from a file or the terminal comes before). *)
Definition main (faultText : jsstring) : M unit :=
  let lines := splitLines faultText in
  let lines := List.map normalize lines in
  let registers := parseRegisters lines in
  printRegisters registers ;;;
  btLines <- backtraceRows lines ;;
  printAsTable btLines.

(** ** Specification-side notions *)

(** Some code unit follows, and the class rejects it; or nothing follows. *)
Definition stops (p : codeunit -> bool) (s : jsstring) : Prop :=
  match s with
  | [] => True
  | c :: _ => p c = false
  end.

(** How many code units a quantifier lets a class take. *)
Definition admits (q : quantifier) (m : jsstring) : Prop :=
  match q with
  | Once => List.length m = 1%nat
  | ZeroOrMore => True
  | OneOrMore => m <> []
  end.

(** A register line as the pattern accepts it: name, white space, colon,
    white space, [0x], hex digits. *)
Definition registerLine (name ws1 ws2 hex : jsstring) : jsstring :=
  name ++ ws1 ++ str ":" ++ ws2 ++ str "0x" ++ hex.

Definition registerShape (name ws1 ws2 hex : jsstring) : Prop :=
  forallb alnum name = true /\ name <> [] /\
  forallb whiteSpace ws1 = true /\
  forallb whiteSpace ws2 = true /\ ws2 <> [] /\
  forallb hexDigit hex = true /\ hex <> [].

(** A backtrace entry: [#<decimal> : <name>@0x<hex>+<decimal> PC:0x<hex>]. *)
Definition backtraceEntry (pos name addr off pc : jsstring) : jsstring :=
  str "#" ++ pos ++ str " : " ++ name ++ str "@0x" ++ addr ++ str "+" ++ off
  ++ str " PC:0x" ++ pc.

Definition backtraceShape (pos name addr off pc : jsstring) : Prop :=
  forallb digit pos = true /\ pos <> [] /\
  forallb notAt name = true /\ name <> [] /\
  forallb hexDigit addr = true /\ addr <> [] /\
  forallb digit off = true /\ off <> [] /\
  forallb hexDigit pc = true /\ pc <> [].

(** The integer a string of hex digits denotes. *)
Definition hexValue (hex : jsstring) : Z := mathInt 16 (digitPrefix 16 hex).

(** A spelling of the marker [recv: ] in some mix of upper and lower case. *)
Definition recvCasing (p : jsstring) : Prop := toUpperCase p = str "RECV: ".

(** The spec's reading of a lookup by name: the last record of that name. *)
Definition lastRegister (registers : list RegisterInfo) (reg : jsstring)
    : option RegisterInfo :=
  findRegister (rev registers) reg.

(** The decoder as the specification describes it: per category, a header
    row when the value meets the category mask, then one row per enumerated
    flag that the value meets, in the order of the enumeration. *)
Definition hasBit (v mask : Z) : bool := negb (Z.land v mask =? 0).

Definition flagRows (v : Z) (flags : list (Z * jsstring * row)) : list row :=
  List.map (fun f => [str ""; snd (fst f)] ++ snd f)
    (filter (fun f => hasBit v (fst (fst f))) flags).

Definition categoryBlock (v mask : Z) (title : string)
    (flags : list (Z * jsstring * row)) : list row :=
  if hasBit v mask then [str ""; str title] :: flagRows v flags else [].

Definition memoryManagementFlags (mmar : option RegisterInfo)
    : list (Z * jsstring * row) :=
  [ (MMARVALID_MASK CFRS, str "MMARVALID", addressColumn "MMAR: " mmar);
    (MLSPERR_MASK CFRS, str "MLSPERR", []);
    (MSTKERR_MASK CFRS, str "MSTKERR", []);
    (MUNSTKERR_MASK CFRS, str "MUNSTKERR", []);
    (DACCVIOL_MASK CFRS, str "DACCVIOL", []);
    (IACCVIOL_MASK CFRS, str "IACCVIOL", []) ].

Definition busFlags (bfar : option RegisterInfo)
    : list (Z * jsstring * row) :=
  [ (BFARVALID_MASK CFRS, str "BFARVALID", addressColumn "BFAR: " bfar);
    (LSPERR_MASK CFRS, str "LSPERR", []);
    (STKERR_MASK CFRS, str "STKERR", []);
    (UNSTKERR_MASK CFRS, str "UNSTKERR", []);
    (IMPRECISERR_MASK CFRS, str "IMPRECISERR", []);
    (PRECISERR_MASK CFRS, str "PRECISERR", []);
    (IBUSERR_MASK CFRS, str "IBUSERR", []) ].

Definition usageFlags : list (Z * jsstring * row) :=
  [ (DIVBYZERO_MASK CFRS, str "DIVBYZERO", []);
    (UNALIGNED_MASK CFRS, str "UNALIGNED", []);
    (NOCP_MASK CFRS, str "NOCP", []);
    (INVPC_MASK CFRS, str "INVPC", []);
    (INVSTATE_MASK CFRS, str "INVSTATE", []);
    (UNDEFINSTR_MASK CFRS, str "UNDEFINSTR", []) ].

Definition decodeSpec (v : Z) (mmar bfar : option RegisterInfo) : list row :=
  categoryBlock v (MEMFAULTSR_MASK CFRS) "Memory Management Fault"
    (memoryManagementFlags mmar)
  ++ categoryBlock v (BUSFAULTSR_MASK CFRS) "Bus Fault" (busFlags bfar)
  ++ categoryBlock v (USAGEFAULTSR_MASK CFRS) "Usage Fault" usageFlags.

(** Rows that start with an empty cell, as the decoder pushes them. *)
Definition indented (rows : list row) : Prop :=
  Forall (fun r => hd_error r = Some (str "")) rows.

(** [out'] is [out] with indented rows pushed at its end. *)
Definition extends (out out' : list row) : Prop :=
  exists added, out' = out ++ added /\ indented added.

(** The comparison [findRegister] makes. *)
Definition named (reg : jsstring) (r : RegisterInfo) : Prop :=
  toUpperCase (register r) = toUpperCase reg.

(** A cell padded to its column width and two more spaces. *)
Definition paddedCell (cw : jsstring * nat) : jsstring :=
  fst cw ++ spaces (snd cw - List.length (fst cw)) ++ spaces 2.

(** The width a column gets when a cell is measured against it. *)
Definition widened (old : option nat) (len : nat) : nat :=
  match old with
  | Some old => Nat.max old len
  | None => len
  end.

(** The console after one more [console.error]. *)
Definition logged (c : console) (msg : jsstring) : console :=
  {| stdout := stdout c; stderr := stderr c ++ [msg] |}.

(** The cell of a row at a column, if the row has that column. *)
Definition cellAt (r : row) (i : nat) : option jsstring := nth_error r i.

(** [[0-9a-f]], the digits [toString(16)] prints. *)
Definition lowerHexDigit (c : codeunit) : bool :=
  inRange "0" "9" c || inRange "a" "f" c.

(** Where column [k] starts in a rendered row: the widths of the columns
    before it, each with its two spaces. *)
Fixpoint columnOffset (w : widths) (k : nat) : nat :=
  match k with
  | O => O
  | S k' =>
      (columnOffset w k'
       + match getAt w k' with Some b => b + 2 | None => 0 end)%nat
  end.

(** The row of the register table for LR or PC: present when the register
    was found and the symbolizer resolved its value. *)
Definition symbolRows (label : jsstring) (reg : option RegisterInfo)
    : list row :=
  match reg with
  | Some reg =>
      match addr2Line (value reg) with
      | Resolved r =>
          [[label; numToHex (value reg); function r;
            fileName r ++ str ":" ++ toString10 expo (line r)]]
      | _ => []
      end
  | None => []
  end.

(** The frames of the lines that match the backtrace pattern and whose PC
    the symbolizer resolves, in the order of the lines. *)
Fixpoint resolvedFrames (lines : list jsstring) : list Frame :=
  match lines with
  | [] => []
  | l :: rest =>
      match exec backtracePattern l with
      | Some m =>
          match addr2Line (pc (backtraceInfo m)) with
          | Resolved r =>
              {| a2l := r; info := backtraceInfo m |} :: resolvedFrames rest
          | _ => resolvedFrames rest
          end
      | None => resolvedFrames rest
      end
  end.

(** The diagnostics for the lines that match but whose PC is not resolved,
    in the order of the lines. *)
Fixpoint failedLookups (lines : list jsstring) : list jsstring :=
  match lines with
  | [] => []
  | l :: rest =>
      match exec backtracePattern l with
      | Some m =>
          match addr2Line (pc (backtraceInfo m)) with
          | Unresolved =>
              (str "Failed to lookup address: "
               ++ toString16 (pc (backtraceInfo m))) :: failedLookups rest
          | _ => failedLookups rest
          end
      | None => failedLookups rest
      end
  end.

(** The two line ends [split(/\r?\n/)] cuts at. *)
Definition lineBreak (sep : jsstring) : Prop :=
  sep = [10%N] \/ sep = [13%N; 10%N].

(** The first row of the register table. *)
Definition registerHeader : row := [str "Register"; str "Value"].

(** ** Facts about the regular-expression matcher *)

Ltac char_consts :=
  unfold alnum, hexDigit, digit, whiteSpace, notAt, inRange, chr in *;
  repeat match goal with
  | |- context [N_of_ascii ?a] =>
      let v := eval vm_compute in (N_of_ascii a) in
      change (N_of_ascii a) with v
  | H : context [N_of_ascii ?a] |- _ =>
      let v := eval vm_compute in (N_of_ascii a) in
      change (N_of_ascii a) with v in H
  end.

Ltac char_arith :=
  char_consts;
  repeat rewrite ?orb_true_iff, ?andb_true_iff, ?orb_false_iff,
    ?andb_false_iff, ?negb_true_iff, ?negb_false_iff,
    ?N.leb_le, ?N.leb_gt, ?N.eqb_eq, ?N.eqb_neq in *;
  lia.

Lemma greedy_sound {R : Type} (p : codeunit -> bool)
    (k : jsstring -> jsstring -> option R) (s taken : jsstring) (r : R) :
  greedy p k taken s = Some r ->
  exists m rest,
    s = m ++ rest /\ forallb p m = true /\ k (taken ++ m) rest = Some r.
Proof.
  revert taken; induction s as [|c s IH]; intros taken H; simpl in H.
  - exists [], []. simpl. rewrite app_nil_r. auto.
  - destruct (p c) eqn:Hp.
    + destruct (greedy p k (taken ++ [c]) s) as [r'|] eqn:Hg.
      * inversion H; subst r'.
        destruct (IH _ Hg) as (m & rest & -> & Hall & Hk).
        exists (c :: m), rest. simpl. rewrite Hp, Hall.
        rewrite <- app_assoc in Hk. auto.
      * exists [], (c :: s). simpl. rewrite app_nil_r. auto.
    + exists [], (c :: s). simpl. rewrite app_nil_r. auto.
Qed.

Lemma greedy_max {R : Type} (p : codeunit -> bool)
    (k : jsstring -> jsstring -> option R) (m rest taken : jsstring) (r : R) :
  forallb p m = true -> stops p rest ->
  k (taken ++ m) rest = Some r ->
  greedy p k taken (m ++ rest) = Some r.
Proof.
  revert taken; induction m as [|c m IH]; intros taken Hall Hstop Hk.
  - rewrite app_nil_r in Hk. simpl.
    destruct rest as [|c rest]; simpl; auto.
    simpl in Hstop. now rewrite Hstop.
  - simpl in Hall. apply andb_true_iff in Hall as [Hc Hall].
    simpl. rewrite Hc.
    rewrite (IH (taken ++ [c]) Hall Hstop); auto.
    now rewrite <- app_assoc.
Qed.


Lemma quantified_sound {R : Type} (p : codeunit -> bool) (q : quantifier)
    (k : jsstring -> jsstring -> option R) (s : jsstring) (r : R) :
  quantified p q k s = Some r ->
  exists m rest,
    s = m ++ rest /\ forallb p m = true /\ admits q m /\ k m rest = Some r.
Proof.
  destruct q; simpl; intros H.
  - destruct s as [|c s]; [discriminate|].
    destruct (p c) eqn:Hp; [|discriminate].
    exists [c], s. simpl. rewrite Hp. auto.
  - apply greedy_sound in H as (m & rest & -> & Hall & Hk).
    exists m, rest. auto.
  - apply greedy_sound in H as (m & rest & -> & Hall & Hk).
    simpl in Hk. destruct m as [|c m]; [discriminate|].
    exists (c :: m), rest. repeat split; auto. discriminate.
Qed.

Lemma quantified_max {R : Type} (p : codeunit -> bool) (q : quantifier)
    (k : jsstring -> jsstring -> option R) (m rest : jsstring) (r : R) :
  q <> Once -> admits q m ->
  forallb p m = true -> stops p rest ->
  k m rest = Some r ->
  quantified p q k (m ++ rest) = Some r.
Proof.
  destruct q; simpl; intros Hq Hadm Hall Hstop Hk; [congruence| |].
  - apply greedy_max; auto.
  - apply greedy_max; auto. simpl. destruct m; [congruence|auto].
Qed.


(** A pattern that starts with [^] matches at position 0 or nowhere. *)
Lemma search_bol (re : regex) (s : jsstring) (pos : nat) :
  pos <> 0%nat -> search (Bol :: re) pos s = None.
Proof.
  revert pos; induction s as [|c s IH]; intros pos Hpos; simpl;
    destruct (Nat.eqb_spec pos 0); try contradiction; auto.
Qed.

Lemma exec_bol (re : regex) (s : jsstring) :
  exec (Bol :: re) s =
  match matchHere re 0 s [] with
  | Some (caps, rest) => Some {| index := 0; groups := caps; after := rest |}
  | None => None
  end.
Proof.
  unfold exec. destruct s as [|c s]; simpl;
    destruct (matchHere re 0 _ []) as [[caps rest]|]; auto.
  now apply search_bol.
Qed.


(** Where a match is found, the pattern matches there and the input is the
    skipped text followed by the matched one. *)
Lemma search_sound (re : regex) (s : jsstring) (pos : nat) (m : matchResult) :
  search re pos s = Some m ->
  exists pre s',
    s = pre ++ s' /\ index m = (pos + List.length pre)%nat /\
    matchHere re (index m) s' [] = Some (groups m, after m).
Proof.
  revert pos; induction s as [|c s IH]; intros pos H; simpl in H.
  - destruct (matchHere re pos [] []) as [[caps rest]|] eqn:Hm; [|discriminate].
    inversion H; subst m; simpl. exists [], []. simpl. rewrite Nat.add_0_r. auto.
  - destruct (matchHere re pos (c :: s) []) as [[caps rest]|] eqn:Hm.
    + inversion H; subst m; simpl. exists [], (c :: s). simpl.
      rewrite Nat.add_0_r. auto.
    + destruct (IH _ H) as (pre & s' & -> & Hi & Hm').
      exists (c :: pre), s'. simpl. rewrite Nat.add_succ_r. auto.
Qed.




Lemma matchHere_capture_max (p : codeunit -> bool) (q : quantifier)
    (re : regex) (pos : nat) (m rest : jsstring) (caps : list jsstring)
    (r : list jsstring * jsstring) :
  q <> Once -> admits q m -> forallb p m = true -> stops p rest ->
  matchHere re (pos + List.length m) rest (caps ++ [m]) = Some r ->
  matchHere (Capture p q :: re) pos (m ++ rest) caps = Some r.
Proof. intros. simpl. now apply quantified_max. Qed.

Lemma matchHere_class_max (p : codeunit -> bool) (q : quantifier)
    (re : regex) (pos : nat) (m rest : jsstring) (caps : list jsstring)
    (r : list jsstring * jsstring) :
  q <> Once -> admits q m -> forallb p m = true -> stops p rest ->
  matchHere re (pos + List.length m) rest caps = Some r ->
  matchHere (Class p q :: re) pos (m ++ rest) caps = Some r.
Proof. intros. simpl. now apply quantified_max. Qed.


Lemma matchHere_lit (a : ascii) (re : regex) (pos : nat) (rest : jsstring)
    (caps : list jsstring) :
  matchHere (lit a :: re) pos (chr a :: rest) caps =
  matchHere re (pos + 1) rest caps.
Proof. simpl. now rewrite N.eqb_refl. Qed.

Lemma matchHere_capture_sound (p : codeunit -> bool) (q : quantifier)
    (re : regex) (pos : nat) (s : jsstring) (caps : list jsstring)
    (r : list jsstring * jsstring) :
  matchHere (Capture p q :: re) pos s caps = Some r ->
  exists m rest,
    s = m ++ rest /\ forallb p m = true /\ admits q m /\
    matchHere re (pos + List.length m) rest (caps ++ [m]) = Some r.
Proof. simpl. apply quantified_sound. Qed.

Lemma matchHere_class_sound (p : codeunit -> bool) (q : quantifier)
    (re : regex) (pos : nat) (s : jsstring) (caps : list jsstring)
    (r : list jsstring * jsstring) :
  matchHere (Class p q :: re) pos s caps = Some r ->
  exists m rest,
    s = m ++ rest /\ forallb p m = true /\ admits q m /\
    matchHere re (pos + List.length m) rest caps = Some r.
Proof. simpl. apply quantified_sound. Qed.

Lemma matchHere_lit_sound (a : ascii) (re : regex) (pos : nat) (s : jsstring)
    (caps : list jsstring) (r : list jsstring * jsstring) :
  matchHere (lit a :: re) pos s caps = Some r ->
  exists rest, s = chr a :: rest /\ matchHere re (pos + 1) rest caps = Some r.
Proof.
  simpl. destruct s as [|c s]; [discriminate|].
  destruct (N.eqb_spec (chr a) c); [|discriminate].
  subst c. eauto.
Qed.

Lemma registerPattern_atoms :
  registerPattern =
  [Bol; Capture alnum OneOrMore; Class whiteSpace ZeroOrMore; lit ":";
   Class whiteSpace OneOrMore; lit "0"; lit "x";
   Capture hexDigit OneOrMore; Eol].
Proof. reflexivity. Qed.

Lemma backtracePattern_atoms :
  backtracePattern =
  [lit "#"; Capture digit OneOrMore; lit " "; lit ":"; lit " ";
   Capture notAt OneOrMore; lit "@"; lit "0"; lit "x";
   Capture hexDigit OneOrMore; lit "+"; Capture digit OneOrMore;
   lit " "; lit "P"; lit "C"; lit ":"; lit "0"; lit "x";
   Capture hexDigit OneOrMore].
Proof. reflexivity. Qed.

Lemma str_cons (a : ascii) (s : string) :
  str (String a s) = chr a :: str s.
Proof. reflexivity. Qed.

Lemma str_nil : str EmptyString = [].
Proof. reflexivity. Qed.

Lemma stops_head_app (p : codeunit -> bool) (m rest : jsstring) :
  (forall c, In c m -> p c = false) -> stops p rest -> stops p (m ++ rest).
Proof.
  destruct m as [|c m]; simpl; auto.
Qed.

Lemma white_not_alnum (c : codeunit) : whiteSpace c = true -> alnum c = false.
Proof. char_arith. Qed.


(** The register pattern accepts a line of the register shape, captures
    its name and digits, and leaves nothing over. *)
Lemma exec_registerLine (name ws1 ws2 hex : jsstring) :
  registerShape name ws1 ws2 hex ->
  exec registerPattern (registerLine name ws1 ws2 hex) =
  Some {| index := 0; groups := [name; hex]; after := [] |}.
Proof.
  intros (Hn & Hn0 & Hw1 & Hw2 & Hw20 & Hh & Hh0).
  rewrite registerPattern_atoms, exec_bol.
  unfold registerLine.
  rewrite !str_cons, !str_nil. simpl app.
  match goal with
  | |- match ?e with _ => _ end = _ =>
      assert (E : e = Some ([name; hex], [])); [|now rewrite E]
  end.
  apply matchHere_capture_max; [discriminate|exact Hn0|exact Hn| |].
  { apply stops_head_app; [|simpl; char_arith].
    intros c Hc. apply white_not_alnum. rewrite forallb_forall in Hw1. auto. }
  apply matchHere_class_max; [discriminate|exact I|exact Hw1| |].
  { simpl. char_arith. }
  rewrite matchHere_lit.
  apply matchHere_class_max; [discriminate|exact Hw20|exact Hw2| |].
  { simpl. char_arith. }
  rewrite !matchHere_lit.
  rewrite <- (app_nil_r hex) at 1.
  apply matchHere_capture_max; [discriminate|exact Hh0|exact Hh|exact I|].
  reflexivity.
Qed.

Lemma exec_registerPattern_sound (l : jsstring) (m : matchResult) :
  exec registerPattern l = Some m ->
  exists name ws1 ws2 hex,
    registerShape name ws1 ws2 hex /\
    l = registerLine name ws1 ws2 hex /\
    m = {| index := 0; groups := [name; hex]; after := [] |}.
Proof.
  rewrite registerPattern_atoms, exec_bol.
  destruct (matchHere _ 0 l []) as [[caps rest]|] eqn:E; [|discriminate].
  intros Hm; inversion Hm; subst m; clear Hm.
  apply matchHere_capture_sound in E as (name & r1 & -> & Hn & Hn0 & E).
  apply matchHere_class_sound in E as (ws1 & r2 & -> & Hw1 & _ & E).
  apply matchHere_lit_sound in E as (r3 & -> & E).
  apply matchHere_class_sound in E as (ws2 & r4 & -> & Hw2 & Hw20 & E).
  apply matchHere_lit_sound in E as (r5 & -> & E).
  apply matchHere_lit_sound in E as (r6 & -> & E).
  apply matchHere_capture_sound in E as (hex & r7 & -> & Hh & Hh0 & E).
  simpl in E. destruct r7; [|discriminate]. inversion E; subst caps rest.
  exists name, ws1, ws2, hex. unfold registerShape, registerLine.
  rewrite app_nil_r. simpl in Hn0, Hw20, Hh0. repeat split; auto.
Qed.

(** The digits [parseInt] reads from a string of hex digits are all of
    them, so the value is the rounded [hexValue]. *)
Lemma hexDigit_value (c : codeunit) :
  hexDigit c = true -> exists d, digitValue 16 c = Some d /\ 0 <= d < 16.
Proof.
  intros H. unfold digitValue.
  assert (Hc : (48 <= Z.of_N c <= 57) \/ (65 <= Z.of_N c <= 70)
               \/ (97 <= Z.of_N c <= 102)) by char_arith.
  destruct Hc as [Hc|[Hc|Hc]].
  - replace ((48 <=? Z.of_N c) && (Z.of_N c <=? 57)) with true
      by (symmetry; apply andb_true_iff; split; apply Z.leb_le; lia).
    replace (Z.of_N c - 48 <? 16) with true by (symmetry; apply Z.ltb_lt; lia).
    eexists; split; eauto. lia.
  - replace ((48 <=? Z.of_N c) && (Z.of_N c <=? 57)) with false
      by (symmetry; apply andb_false_iff; right; apply Z.leb_gt; lia).
    replace ((65 <=? Z.of_N c) && (Z.of_N c <=? 90)) with true
      by (symmetry; apply andb_true_iff; split; apply Z.leb_le; lia).
    replace (Z.of_N c - 55 <? 16) with true by (symmetry; apply Z.ltb_lt; lia).
    eexists; split; eauto. lia.
  - replace ((48 <=? Z.of_N c) && (Z.of_N c <=? 57)) with false
      by (symmetry; apply andb_false_iff; right; apply Z.leb_gt; lia).
    replace ((65 <=? Z.of_N c) && (Z.of_N c <=? 90)) with false
      by (symmetry; apply andb_false_iff; right; apply Z.leb_gt; lia).
    replace ((97 <=? Z.of_N c) && (Z.of_N c <=? 122)) with true
      by (symmetry; apply andb_true_iff; split; apply Z.leb_le; lia).
    replace (Z.of_N c - 87 <? 16) with true by (symmetry; apply Z.ltb_lt; lia).
    eexists; split; eauto. lia.
Qed.

Lemma digitPrefix_hex (hex : jsstring) :
  forallb hexDigit hex = true ->
  List.length (digitPrefix 16 hex) = List.length hex /\
  Forall (fun d => 0 <= d < 16) (digitPrefix 16 hex).
Proof.
  induction hex as [|c hex IH]; simpl; intros H; [auto|].
  apply andb_true_iff in H as [Hc H].
  destruct (hexDigit_value c Hc) as (d & -> & Hd).
  destruct (IH H) as [IH1 IH2]. simpl. auto.
Qed.

Lemma mathInt_bounds (ds : list Z) (acc : Z) :
  Forall (fun d => 0 <= d < 16) ds -> 0 <= acc ->
  acc * 16 ^ Z.of_nat (List.length ds)
  <= fold_left (fun a d => a * 16 + d) ds acc
  < (acc + 1) * 16 ^ Z.of_nat (List.length ds).
Proof.
  revert acc; induction ds as [|d ds IH]; intros acc Hds Hacc.
  - simpl. lia.
  - inversion Hds; subst.
    cbn [fold_left List.length]. rewrite Nat2Z.inj_succ, Z.pow_succ_r by lia.
    specialize (IH (acc * 16 + d) H2 ltac:(lia)).
    assert (0 < 16 ^ Z.of_nat (List.length ds)) by (apply Z.pow_pos_nonneg; lia).
    nia.
Qed.

Lemma parseInt_hex (hex : jsstring) :
  forallb hexDigit hex = true -> hex <> [] ->
  parseInt hex 16 = roundToDouble (hexValue hex).
Proof.
  intros H H0. unfold parseInt, hexValue.
  destruct (digitPrefix_hex hex H) as [Hl _].
  destruct (digitPrefix 16 hex) eqn:E; auto.
  destruct hex; [congruence|discriminate].
Qed.

Lemma hexValue_bounds (hex : jsstring) :
  forallb hexDigit hex = true ->
  0 <= hexValue hex < 16 ^ Z.of_nat (List.length hex).
Proof.
  intros H. destruct (digitPrefix_hex hex H) as [Hl Hd].
  unfold hexValue, mathInt.
  pose proof (mathInt_bounds _ 0 Hd ltac:(lia)) as B.
  rewrite Hl in B. lia.
Qed.

(** Up to eight hex digits denote an unsigned 32-bit integer, which
    [parseInt] returns exactly. *)
Lemma parseInt_hex_32bit (hex : jsstring) :
  forallb hexDigit hex = true -> hex <> [] ->
  (List.length hex <= 8)%nat ->
  parseInt hex 16 = Num (hexValue hex) /\ 0 <= hexValue hex < 2 ^ 32.
Proof.
  intros H H0 Hlen. rewrite parseInt_hex by auto.
  pose proof (hexValue_bounds hex H) as B.
  assert (16 ^ Z.of_nat (List.length hex) <= 16 ^ 8)
    by (apply Z.pow_le_mono_r; lia).
  change (16 ^ 8) with (2 ^ 32) in *.
  split; [|lia].
  unfold roundToDouble.
  replace (hexValue hex <? 2 ^ 53) with true; auto.
  symmetry. apply Z.ltb_lt. assert (2 ^ 32 < 2 ^ 53) by reflexivity. lia.
Qed.

(** [parseRegisterLine] accepts exactly the lines of the register shape. *)
Lemma parseRegisterLine_iff (l : jsstring) (r : RegisterInfo) :
  parseRegisterLine l = Some r <->
  exists name ws1 ws2 hex,
    registerShape name ws1 ws2 hex /\
    l = registerLine name ws1 ws2 hex /\
    r = {| register := name; value := parseInt hex 16 |}.
Proof.
  unfold parseRegisterLine. split.
  - destruct (exec registerPattern l) as [m|] eqn:E; [|discriminate].
    intros Hr; inversion Hr; subst r; clear Hr.
    apply exec_registerPattern_sound in E
      as (name & ws1 & ws2 & hex & Hs & -> & ->).
    exists name, ws1, ws2, hex. auto.
  - intros (name & ws1 & ws2 & hex & Hs & -> & ->).
    now rewrite exec_registerLine.
Qed.


Lemma forallb_not_in (p : codeunit -> bool) (c : codeunit) (l : jsstring) :
  forallb p l = true -> p c = false -> ~ In c l.
Proof.
  intros H Hc Hin. rewrite forallb_forall in H.
  specialize (H c Hin). congruence.
Qed.



(** *** The [recv: ] marker *)

Lemma recvPattern_atoms :
  recvPattern =
  [Bol; liti "r"; liti "e"; liti "c"; liti "v"; liti ":"; liti " "].
Proof. reflexivity. Qed.

Lemma matchHere_liti (a : ascii) (re : regex) (pos : nat) (c : codeunit)
    (rest : jsstring) (caps : list jsstring) :
  upperUnit c = upperUnit (chr a) ->
  matchHere (liti a :: re) pos (c :: rest) caps =
  matchHere re (pos + 1) rest caps.
Proof. intros H. cbn [matchHere liti quantified]. now rewrite H, N.eqb_refl. Qed.

Lemma matchHere_liti_sound (a : ascii) (re : regex) (pos : nat) (s : jsstring)
    (caps : list jsstring) (r : list jsstring * jsstring) :
  matchHere (liti a :: re) pos s caps = Some r ->
  exists c rest,
    s = c :: rest /\ upperUnit c = upperUnit (chr a) /\
    matchHere re (pos + 1) rest caps = Some r.
Proof.
  cbn [matchHere liti quantified]. destruct s as [|c s]; [discriminate|].
  destruct (N.eqb_spec (upperUnit c) (upperUnit (chr a))); [|discriminate].
  eauto.
Qed.

(** A marker at the start of the line is removed, and the rest of the line
    is left as it is. *)
Lemma normalize_recv (p l : jsstring) :
  recvCasing p -> normalize (p ++ l) = l.
Proof.
  unfold recvCasing, toUpperCase. intros H.
  destruct p as [|c1 [|c2 [|c3 [|c4 [|c5 [|c6 [|c7 p]]]]]]]; try discriminate.
  cbn [List.map] in H. inversion H as [[H1 H2 H3 H4 H5 H6]].
  unfold normalize, replace. rewrite recvPattern_atoms, exec_bol.
  cbn [app].
  rewrite !matchHere_liti by assumption.
  reflexivity.
Qed.

(** Normalisation removes such a marker and does nothing else. *)
Lemma normalize_only_recv (l : jsstring) :
  normalize l = l \/ exists p, recvCasing p /\ l = p ++ normalize l.
Proof.
  unfold normalize, replace. rewrite recvPattern_atoms, exec_bol.
  destruct (matchHere _ 0 l []) as [[caps rest]|] eqn:E; [right|now left].
  apply matchHere_liti_sound in E as (c1 & r1 & -> & H1 & E).
  apply matchHere_liti_sound in E as (c2 & r2 & -> & H2 & E).
  apply matchHere_liti_sound in E as (c3 & r3 & -> & H3 & E).
  apply matchHere_liti_sound in E as (c4 & r4 & -> & H4 & E).
  apply matchHere_liti_sound in E as (c5 & r5 & -> & H5 & E).
  apply matchHere_liti_sound in E as (c6 & r6 & -> & H6 & E).
  cbn [matchHere] in E. inversion E; subst caps rest.
  exists [c1; c2; c3; c4; c5; c6]. split; [|reflexivity].
  unfold recvCasing, toUpperCase. cbn [List.map].
  now rewrite H1, H2, H3, H4, H5, H6.
Qed.

(** *** The effectful functions *)

Lemma parseBacktraceLine_no_match (l : jsstring) (c : console) :
  exec backtracePattern l = None ->
  parseBacktraceLine l c = (Ok None, c).
Proof. unfold parseBacktraceLine. now intros ->. Qed.

Lemma parseBacktraceLine_resolved (l : jsstring) (m : matchResult)
    (r : Addr2LineResult) (c : console) :
  exec backtracePattern l = Some m ->
  addr2Line (pc (backtraceInfo m)) = Resolved r ->
  parseBacktraceLine l c = (Ok (Some {| a2l := r; info := backtraceInfo m |}), c).
Proof.
  unfold parseBacktraceLine, bind, awaitAddr2Line. now intros -> ->.
Qed.

Lemma parseBacktraceLine_unresolved (l : jsstring) (m : matchResult)
    (c : console) :
  exec backtracePattern l = Some m ->
  addr2Line (pc (backtraceInfo m)) = Unresolved ->
  parseBacktraceLine l c =
  (Ok None,
   logged c (str "Failed to lookup address: "
             ++ toString16 (pc (backtraceInfo m)))).
Proof.
  unfold parseBacktraceLine, bind, awaitAddr2Line. now intros -> ->.
Qed.

Lemma parseBacktraceLine_rejected (l : jsstring) (m : matchResult)
    (e : jsstring) (c : console) :
  exec backtracePattern l = Some m ->
  addr2Line (pc (backtraceInfo m)) = Rejected e ->
  parseBacktraceLine l c = (Throw e, c).
Proof.
  unfold parseBacktraceLine, bind, awaitAddr2Line. now intros -> ->.
Qed.

(** The loop only ever appends to [btLines], and it stops early only when
    the symbolizer call throws. *)
Lemma backtraceLoop_appends (lines : list jsstring) (btLines : list row)
    (c : console) :
  match backtraceLoop lines btLines c with
  | (Ok rows, _) => exists frames, rows = btLines ++ frames
  | (Throw e, _) => exists a, addr2Line a = Rejected e
  end.
Proof.
  revert btLines c; induction lines as [|l lines IH]; intros btLines c.
  - simpl. exists []. now rewrite app_nil_r.
  - cbn [backtraceLoop]. unfold bind at 1.
    destruct (exec backtracePattern l) as [m|] eqn:Em.
    + destruct (addr2Line (pc (backtraceInfo m))) as [r| |e] eqn:Ea.
      * rewrite (parseBacktraceLine_resolved _ _ _ _ Em Ea).
        specialize (IH (btLines ++ [frameRow {| a2l := r; info := backtraceInfo m |}]) c).
        destruct (backtraceLoop lines _ c) as [[rows|e] c']; auto.
        destruct IH as (frames & ->). rewrite <- app_assoc. eauto.
      * rewrite (parseBacktraceLine_unresolved _ _ _ Em Ea). apply IH.
      * rewrite (parseBacktraceLine_rejected _ _ _ _ Em Ea). eauto.
    + rewrite (parseBacktraceLine_no_match _ _ Em). apply IH.
Qed.

Lemma backtraceLoop_no_entries (lines : list jsstring) (btLines : list row)
    (c : console) :
  (forall l, In l lines -> exec backtracePattern l = None) ->
  backtraceLoop lines btLines c = (Ok btLines, c).
Proof.
  revert c; induction lines as [|l lines IH]; intros c H; [reflexivity|].
  cbn [backtraceLoop]. unfold bind at 1.
  rewrite parseBacktraceLine_no_match by (apply H; now left).
  apply IH. intros l' Hl'. apply H. now right.
Qed.

(** *** The CFSR decoder *)

(** For a 32-bit register value, [cfsr & flag] is truthy exactly when the
    value and the flag share a bit. *)
Lemma truthy_bitAnd (v flag : Z) :
  0 <= v < 2 ^ 32 ->
  truthy (bitAnd (Num v) (Num flag)) = hasBit v flag.
Proof.
  intros Hv. unfold truthy, bitAnd, toUint32, hasBit. f_equal.
  rewrite (Z.mod_small v) by lia.
  assert (E : Z.land v (flag mod 2 ^ 32) = Z.land v flag).
  { rewrite <- !Z.land_ones by lia.
    rewrite (Z.land_comm flag), Z.land_assoc, Z.land_ones by lia.
    now rewrite Z.mod_small by lia. }
  rewrite E.
  assert (B : 0 <= Z.land v flag < 2 ^ 32).
  { rewrite <- E, <- Z.land_ones, Z.land_assoc, Z.land_ones by lia.
    apply Z.mod_pos_bound. lia. }
  unfold int32OfBits.
  change (2 ^ 32) with 4294967296 in *. change (2 ^ 31) with 2147483648 in *.
  destruct (Z.leb_spec 2147483648 (Z.land v flag));
    destruct (Z.eqb_spec (Z.land v flag) 0);
    destruct (Z.eqb_spec (Z.land v flag - 4294967296) 0); auto; lia.
Qed.

Lemma checkFlag_spec (v flag : Z) (name : jsstring) (extra : row)
    (out : list row) :
  0 <= v < 2 ^ 32 ->
  checkFlag (Num v) flag name extra out =
  out ++ flagRows v [(flag, name, extra)].
Proof.
  intros Hv. unfold checkFlag, flagRows. rewrite truthy_bitAnd by auto.
  cbn [filter List.map fst snd].
  destruct (hasBit v flag); simpl; auto using app_nil_r.
Qed.

Lemma flagRows_app (v : Z) (a b : list (Z * jsstring * row)) :
  flagRows v (a ++ b) = flagRows v a ++ flagRows v b.
Proof. unfold flagRows. now rewrite filter_app, map_app. Qed.

Lemma memoryManagementFault_spec (v : Z) (mmar : option RegisterInfo)
    (out : list row) :
  0 <= v < 2 ^ 32 ->
  memoryManagementFault (Num v) mmar out =
  out ++ categoryBlock v (MEMFAULTSR_MASK CFRS) "Memory Management Fault"
           (memoryManagementFlags mmar).
Proof.
  intros Hv. unfold memoryManagementFault, categoryBlock.
  rewrite truthy_bitAnd by auto.
  destruct (hasBit v (MEMFAULTSR_MASK CFRS));
    [|now rewrite app_nil_r].
  rewrite !checkFlag_spec by auto. unfold memoryManagementFlags.
  rewrite <- !app_assoc, <- !flagRows_app. reflexivity.
Qed.

Lemma busFault_spec (v : Z) (bfar : option RegisterInfo) (out : list row) :
  0 <= v < 2 ^ 32 ->
  busFault (Num v) bfar out =
  out ++ categoryBlock v (BUSFAULTSR_MASK CFRS) "Bus Fault" (busFlags bfar).
Proof.
  intros Hv. unfold busFault, categoryBlock.
  rewrite truthy_bitAnd by auto.
  destruct (hasBit v (BUSFAULTSR_MASK CFRS));
    [|now rewrite app_nil_r].
  rewrite !checkFlag_spec by auto. unfold busFlags.
  rewrite <- !app_assoc, <- !flagRows_app. reflexivity.
Qed.

Lemma usageFault_spec (v : Z) (out : list row) :
  0 <= v < 2 ^ 32 ->
  usageFault (Num v) out =
  out ++ categoryBlock v (USAGEFAULTSR_MASK CFRS) "Usage Fault" usageFlags.
Proof.
  intros Hv. unfold usageFault, categoryBlock.
  rewrite truthy_bitAnd by auto.
  destruct (hasBit v (USAGEFAULTSR_MASK CFRS));
    [|now rewrite app_nil_r].
  rewrite !checkFlag_spec by auto. unfold usageFlags.
  rewrite <- !app_assoc, <- !flagRows_app. reflexivity.
Qed.

Lemma decodeCfsr_spec (reg : RegisterInfo) (v : Z)
    (mmar bfar : option RegisterInfo) (out : list row) :
  value reg = Num v -> 0 <= v < 2 ^ 32 ->
  decodeCfsr (Some reg) mmar bfar out = out ++ decodeSpec v mmar bfar.
Proof.
  intros E Hv. unfold decodeCfsr, decodeSpec. rewrite E.
  rewrite usageFault_spec, busFault_spec, memoryManagementFault_spec by auto.
  now rewrite <- !app_assoc.
Qed.

Lemma extends_refl (out : list row) : extends out out.
Proof. exists []. split; [now rewrite app_nil_r|constructor]. Qed.

Lemma extends_trans (a b c : list row) :
  extends a b -> extends b c -> extends a c.
Proof.
  intros (x & -> & Hx) (y & -> & Hy). exists (x ++ y).
  split; [now rewrite app_assoc|]. apply Forall_app; auto.
Qed.

Lemma extends_header (out : list row) (title : jsstring) :
  extends out (out ++ [[str ""; title]]).
Proof. exists [[str ""; title]]. split; auto. repeat constructor. Qed.

Lemma checkFlag_extends (cfsr : number) (flag : Z) (name : jsstring)
    (extra : row) (out : list row) :
  extends out (checkFlag cfsr flag name extra out).
Proof.
  unfold checkFlag. destruct (truthy _); [|apply extends_refl].
  exists [[str ""; name] ++ extra]. split; auto. repeat constructor.
Qed.

Ltac extends_chain :=
  repeat first
    [ apply extends_header
    | apply extends_refl
    | eapply extends_trans; [|apply checkFlag_extends] ].

Lemma memoryManagementFault_extends (cfsr : number)
    (mmar : option RegisterInfo) (out : list row) :
  extends out (memoryManagementFault cfsr mmar out).
Proof.
  unfold memoryManagementFault. destruct (truthy _); extends_chain.
Qed.

Lemma busFault_extends (cfsr : number) (bfar : option RegisterInfo)
    (out : list row) :
  extends out (busFault cfsr bfar out).
Proof. unfold busFault. destruct (truthy _); extends_chain. Qed.

Lemma usageFault_extends (cfsr : number) (out : list row) :
  extends out (usageFault cfsr out).
Proof. unfold usageFault. destruct (truthy _); extends_chain. Qed.

(** Whatever the registers hold, the decoder only pushes indented rows. *)
Lemma decodeCfsr_extends (cfsrReg mmar bfar : option RegisterInfo)
    (out : list row) :
  extends out (decodeCfsr cfsrReg mmar bfar out).
Proof.
  unfold decodeCfsr. destruct cfsrReg as [reg|]; [|apply extends_refl].
  eapply extends_trans; [|apply usageFault_extends].
  eapply extends_trans; [|apply busFault_extends].
  apply memoryManagementFault_extends.
Qed.

(** *** Register lookup and the register table *)

Lemma jsstring_eqb_eq (a b : jsstring) : jsstring_eqb a b = true <-> a = b.
Proof.
  revert b; induction a as [|x a IH]; intros [|y b]; simpl;
    try (split; congruence).
  rewrite andb_true_iff, N.eqb_eq, IH. split.
  - intros [-> ->]. reflexivity.
  - intros E. inversion E. auto.
Qed.

Lemma find_first {A : Type} (f : A -> bool) (l : list A) (x : A) :
  find f l = Some x <->
  exists pre post,
    l = pre ++ x :: post /\ f x = true /\ forall y, In y pre -> f y = false.
Proof.
  split.
  - induction l as [|a l IH]; simpl; [discriminate|].
    destruct (f a) eqn:Fa.
    + intros E; inversion E; subst a. exists [], l. simpl. tauto.
    + intros E. destruct (IH E) as (pre & post & -> & Fx & Hpre).
      exists (a :: pre), post. simpl. repeat split; auto.
      intros y [<-|Hy]; auto.
  - intros (pre & post & -> & Fx & Hpre).
    induction pre as [|a pre IH]; simpl.
    + now rewrite Fx.
    + rewrite (Hpre a) by now left. apply IH. intros y Hy. apply Hpre. now right.
Qed.

Lemma findRegister_first (registers : list RegisterInfo) (reg : jsstring)
    (r : RegisterInfo) :
  findRegister registers reg = Some r <->
  exists pre post,
    registers = pre ++ r :: post /\ named reg r /\
    forall x, In x pre -> ~ named reg x.
Proof.
  unfold findRegister, named. rewrite find_first. split.
  - intros (pre & post & -> & Fr & Hpre). exists pre, post.
    rewrite jsstring_eqb_eq in Fr. repeat split; auto.
    intros x Hx E. apply jsstring_eqb_eq in E. rewrite (Hpre x Hx) in E.
    discriminate.
  - intros (pre & post & -> & Fr & Hpre). exists pre, post.
    rewrite jsstring_eqb_eq. repeat split; auto.
    intros x Hx. destruct (jsstring_eqb _ _) eqn:E; auto.
    apply jsstring_eqb_eq in E. now apply Hpre in E.
Qed.

Lemma parseRegisters_app (a b : list jsstring) :
  parseRegisters (a ++ b) = parseRegisters a ++ parseRegisters b.
Proof.
  induction a as [|l a IH]; simpl; auto.
  destruct (parseRegisterLine l); simpl; now rewrite IH.
Qed.

Lemma parseRegisters_In (lines : list jsstring) (r : RegisterInfo) :
  In r (parseRegisters lines) <->
  exists l, In l lines /\ parseRegisterLine l = Some r.
Proof.
  induction lines as [|l lines IH]; simpl.
  - split; [tauto|]. intros (l & [] & _).
  - destruct (parseRegisterLine l) as [r'|] eqn:E; simpl; rewrite IH; split.
    + intros [->|(l' & Hl' & E')]; eauto.
    + intros (l' & [->|Hl'] & E'); [left; congruence|eauto].
    + intros (l' & Hl' & E'); eauto.
    + intros (l' & [->|Hl'] & E'); [congruence|eauto].
Qed.

(** The position of a parsed record among the records is the position of
    its line among the lines. *)
Lemma parseRegisters_split (lines : list jsstring)
    (pre post : list RegisterInfo) (r : RegisterInfo) :
  parseRegisters lines = pre ++ r :: post ->
  exists before l after,
    lines = before ++ l :: after /\ parseRegisterLine l = Some r /\
    parseRegisters before = pre /\ parseRegisters after = post.
Proof.
  revert pre; induction lines as [|l lines IH]; intros pre E; simpl in E.
  - destruct pre; discriminate.
  - destruct (parseRegisterLine l) as [r'|] eqn:El.
    + destruct pre as [|x pre]; simpl in E; inversion E; subst.
      * exists [], l, lines. simpl. auto.
      * destruct (IH pre H1) as (before & l' & after & -> & El' & <- & <-).
        exists (l :: before), l', after. simpl. rewrite El. auto.
    + destruct (IH pre E) as (before & l' & after & -> & El' & <- & <-).
      exists (l :: before), l', after. simpl. rewrite El. auto.
Qed.

Lemma symbolRow_cases (label : jsstring) (reg : option RegisterInfo)
    (out : list row) (c : console) :
  symbolRow label reg out c =
  match reg with
  | None => (Ok out, c)
  | Some reg =>
      match addr2Line (value reg) with
      | Resolved r =>
          (Ok (out ++ [[label; numToHex (value reg); function r;
                        fileName r ++ str ":" ++ toString10 expo (line r)]]), c)
      | Unresolved =>
          (Ok out,
           logged c (str "Failed to lookup " ++ label ++ str ": "
                     ++ toString16 (value reg)))
      | Rejected e => (Throw e, c)
      end
  end.
Proof.
  unfold symbolRow, bind, awaitAddr2Line. destruct reg as [reg|]; auto.
  destruct (addr2Line (value reg)); reflexivity.
Qed.

Lemma symbolRow_stderr (label : jsstring) (reg : option RegisterInfo)
    (out out' : list row) (c c' : console) (msg : jsstring) :
  symbolRow label reg out c = (Ok out', c') ->
  In msg (stderr c) -> In msg (stderr c').
Proof.
  rewrite symbolRow_cases. destruct reg as [reg|].
  - destruct (addr2Line (value reg)); intros E; inversion E; subst; auto.
    intros H. simpl. apply in_or_app. now left.
  - intros E; inversion E; subst; auto.
Qed.

(** *** The table renderer *)

Lemma getAt_nil (j : nat) : getAt [] j = None.
Proof. unfold getAt. now destruct j. Qed.

Lemma getAt_setAt (i v : nat) (w : widths) (j : nat) :
  getAt (setAt i v w) j = if Nat.eqb j i then Some v else getAt w j.
Proof.
  revert w j; induction i as [|i IH]; intros [|x w] [|j]; simpl; auto.
  - change (getAt [Some v] (S j)) with (getAt [] j). now rewrite !getAt_nil.
  - change (getAt (None :: setAt i v []) (S j)) with (getAt (setAt i v []) j).
    rewrite IH. now rewrite !getAt_nil.
  - change (getAt (x :: setAt i v w) (S j)) with (getAt (setAt i v w) j).
    change (getAt (x :: w) (S j)) with (getAt w j).
    now rewrite IH.
Qed.

(** One step of the inner loop sets column [i] to the larger of its old
    width and the cell's length and touches no other column. *)
Lemma measure_step (w : widths) (i len j : nat) :
  getAt
    match getAt w i with
    | None => setAt i len w
    | Some old => if Nat.ltb old len then setAt i len w else w
    end j
  = if Nat.eqb j i then Some (widened (getAt w i) len) else getAt w j.
Proof.
  destruct (getAt w i) as [old|] eqn:E; simpl.
  - destruct (Nat.ltb_spec old len).
    + rewrite getAt_setAt. destruct (Nat.eqb_spec j i); auto.
      f_equal. lia.
    + destruct (Nat.eqb_spec j i); auto. subst j. rewrite E. f_equal. lia.
  - now rewrite getAt_setAt.
Qed.

Lemma measureLine_getAt (cells : row) (i : nat) (w : widths) (j : nat) :
  getAt (measureLine cells i w) j =
  if Nat.ltb j i then getAt w j
  else
    match nth_error cells (j - i) with
    | Some cell => Some (widened (getAt w j) (List.length cell))
    | None => getAt w j
    end.
Proof.
  revert i w; induction cells as [|cell rest IH]; intros i w.
  - simpl. destruct (Nat.ltb j i); auto. now destruct (j - i)%nat.
  - cbn [measureLine]. rewrite IH, !measure_step.
    destruct (Nat.ltb_spec j (S i)), (Nat.ltb_spec j i), (Nat.eqb_spec j i);
      try lia; auto.
    + subst j. now rewrite Nat.sub_diag.
    + replace (j - i)%nat with (S (j - S i)) by lia. reflexivity.
Qed.

Lemma measureLine_column (cells : row) (w : widths) (j : nat) :
  getAt (measureLine cells 0 w) j =
  match cellAt cells j with
  | Some cell => Some (widened (getAt w j) (List.length cell))
  | None => getAt w j
  end.
Proof.
  rewrite measureLine_getAt. simpl. now rewrite Nat.sub_0_r.
Qed.

(** Widths only grow while the rows are measured. *)
Lemma widths_grow (lines : list row) (w : widths) (j a : nat) :
  getAt w j = Some a ->
  exists b,
    getAt (fold_left (fun w l => measureLine l 0 w) lines w) j = Some b /\
    (a <= b)%nat.
Proof.
  revert w a; induction lines as [|l lines IH]; intros w a H; simpl.
  - eauto.
  - pose proof (measureLine_column l w j) as E. rewrite H in E.
    destruct (cellAt l j) as [cell|]; simpl in E.
    + destruct (IH _ _ E) as (b & Hb & Hab). exists b. split; auto. lia.
    + apply (IH _ _ E).
Qed.

(** Every cell fits the width of its column. *)
Lemma widths_cover (lines : list row) (w : widths) (l : row) (j : nat)
    (cell : jsstring) :
  In l lines -> cellAt l j = Some cell ->
  exists b,
    getAt (fold_left (fun w l => measureLine l 0 w) lines w) j = Some b /\
    (List.length cell <= b)%nat.
Proof.
  revert w; induction lines as [|l' lines IH]; intros w Hin Hc;
    [destruct Hin|]. destruct Hin as [-> | Hin]; simpl.
  - pose proof (measureLine_column l w j) as E. rewrite Hc in E.
    destruct (widths_grow lines _ _ _ E) as (b & Hb & Hab).
    exists b. split; auto. unfold widened in Hab.
    destruct (getAt w j); lia.
  - now apply IH.
Qed.

(** Every width is the length of some cell of that column. *)
Lemma widths_attained (lines : list row) (w : widths) (j b : nat) :
  getAt (fold_left (fun w l => measureLine l 0 w) lines w) j = Some b ->
  getAt w j = Some b \/
  exists l cell, In l lines /\ cellAt l j = Some cell /\ List.length cell = b.
Proof.
  revert w; induction lines as [|l lines IH]; intros w H; simpl in H; auto.
  destruct (IH _ H) as [H'|(l' & cell & Hin & Hc & Hl)].
  - rewrite measureLine_column in H'.
    destruct (cellAt l j) as [cell|] eqn:Hc; auto.
    inversion H' as [E]. unfold widened in *.
    destruct (getAt w j) as [old|] eqn:Ho.
    + destruct (Nat.max_spec old (List.length cell)) as [[_ Hm]|[_ Hm]];
        rewrite Hm in *.
      * right. exists l, cell. simpl. auto.
      * left. reflexivity.
    + right. exists l, cell. simpl. auto.
  - right. exists l', cell. simpl. auto.
Qed.

Lemma padEnd_width (entry : jsstring) (w : nat) :
  (List.length entry <= w)%nat ->
  padEnd entry (w + 2) = paddedCell (entry, w).
Proof.
  intros H. unfold padEnd, paddedCell, spaces. simpl fst; simpl snd.
  rewrite <- repeat_app. do 2 f_equal. lia.
Qed.

(** A row is rendered cell by cell, each cell padded to the width of its
    column plus two, and nothing is rendered for columns the row lacks. *)
Lemma formatLine_cells (w : widths) (cells : row) (i : nat) (s : jsstring) :
  (forall k cell, nth_error cells k = Some cell ->
     exists b, getAt w (i + k) = Some b /\ (List.length cell <= b)%nat) ->
  exists ws,
    Forall2 (fun cell b => (List.length cell <= b)%nat) cells ws /\
    (forall k b, nth_error ws k = Some b -> getAt w (i + k) = Some b) /\
    formatLine w cells i s = s ++ List.concat (List.map paddedCell (combine cells ws)).
Proof.
  revert i s; induction cells as [|entry rest IH]; intros i s H.
  - exists []. simpl. rewrite app_nil_r. repeat split; auto.
    intros [|k] b; discriminate.
  - destruct (H 0%nat entry eq_refl) as (b & Hb & Hlen).
    rewrite Nat.add_0_r in Hb.
    destruct (IH (S i) (s ++ padEnd entry (b + 2))) as (ws & Hws & Hget & Hfmt).
    { intros k cell Hk. destruct (H (S k) cell Hk) as (b' & Hb' & Hl').
      exists b'. now rewrite Nat.add_succ_r in Hb'. }
    exists (b :: ws). repeat split.
    + constructor; auto.
    + intros [|k] b' Hk; simpl in Hk.
      * inversion Hk; subst. now rewrite Nat.add_0_r.
      * rewrite Nat.add_succ_r. now apply Hget.
    + cbn [formatLine]. rewrite Hb, Hfmt, padEnd_width by auto.
      simpl. now rewrite <- app_assoc.
Qed.

Lemma logLines_spec (ls : list jsstring) (c : console) :
  logLines ls c = (Ok tt, {| stdout := stdout c ++ ls; stderr := stderr c |}).
Proof.
  revert c; induction ls as [|l ls IH]; intros c; simpl.
  - unfold ret. rewrite app_nil_r. now destruct c.
  - unfold bind, console_log. rewrite IH. simpl. now rewrite <- app_assoc.
Qed.

Lemma symbolRow_out (label : jsstring) (reg : option RegisterInfo)
    (out out' : list row) (c c' : console) :
  symbolRow label reg out c = (Ok out', c') ->
  out' = out \/ exists cells, out' = out ++ [label :: cells].
Proof.
  rewrite symbolRow_cases. destruct reg as [reg|].
  - destruct (addr2Line (value reg)); intros E; inversion E; subst; eauto.
  - intros E; inversion E; auto.
Qed.

Lemma indented_head (added : list row) (r : row) (label : jsstring) :
  indented added -> In r added -> label <> str "" -> hd_error r <> Some label.
Proof.
  unfold indented. rewrite Forall_forall. intros H Hin Hl E.
  rewrite (H r Hin) in E. congruence.
Qed.

(** ** The claims *)

(** C1.  For a 32-bit CFSR value [v] the decoder pushes, in this order, the
    Memory Management, Bus Fault and Usage Fault blocks; a block consists
    of its header row, present exactly when [v] has a bit of the category
    mask, followed by one row for each flag of the category's enumeration
    that has a bit in [v], in the order of the enumeration; for [v = 0]
    nothing is pushed. *)
Theorem C1_cfsr_decoder (reg : RegisterInfo) (v : Z)
    (mmar bfar : option RegisterInfo) (out : list row) :
  value reg = Num v -> 0 <= v < 2 ^ 32 ->
  decodeCfsr (Some reg) mmar bfar out =
    out
    ++ (if hasBit v (MEMFAULTSR_MASK CFRS)
        then [str ""; str "Memory Management Fault"]
             :: flagRows v (memoryManagementFlags mmar)
        else [])
    ++ (if hasBit v (BUSFAULTSR_MASK CFRS)
        then [str ""; str "Bus Fault"] :: flagRows v (busFlags bfar)
        else [])
    ++ (if hasBit v (USAGEFAULTSR_MASK CFRS)
        then [str ""; str "Usage Fault"] :: flagRows v usageFlags
        else [])
  /\ (v = 0 -> decodeCfsr (Some reg) mmar bfar out = out).
Proof.
  intros E Hv. split.
  - now rewrite (decodeCfsr_spec reg v) by auto.
  - intros ->. rewrite (decodeCfsr_spec reg 0) by auto.
    unfold decodeSpec, categoryBlock, hasBit. rewrite !Z.land_0_l. simpl.
    now rewrite app_nil_r.
Qed.

(** C2 (amended).  When LR or PC was parsed but the symbolizer does not
    resolve its value, the failure is logged on the diagnostic channel and
    the register/fault table has no row for that register. *)
Theorem C2_unresolved_register_dropped (registers : list RegisterInfo)
    (label : jsstring) (reg : RegisterInfo) (c c' : console)
    (rows : list row) :
  label = str "LR" \/ label = str "PC" ->
  findRegister registers label = Some reg ->
  addr2Line (value reg) = Unresolved ->
  registerRows registers c = (Ok rows, c') ->
  (forall r, In r rows -> hd_error r <> Some label) /\
  In (str "Failed to lookup " ++ label ++ str ": " ++ toString16 (value reg))
     (stderr c').
Proof.
  intros Hlabel Hfind Ha. unfold registerRows, bind.
  destruct (symbolRow (str "LR") _ _ c) as [[out1|e] c1] eqn:E1;
    [|discriminate].
  destruct (symbolRow (str "PC") _ out1 c1) as [[out2|e] c2] eqn:E2;
    [|discriminate].
  unfold ret. intros E; inversion E; subst rows c'; clear E.
  destruct (decodeCfsr_extends (findRegister registers (str "CFSR"))
              (findRegister registers (str "MMAR"))
              (findRegister registers (str "BFAR")) out2) as (added & -> & Hadd).
  destruct Hlabel as [-> | ->].
  - pose proof E1 as E1'. rewrite symbolRow_cases, Hfind, Ha in E1'.
    inversion E1'; subst out1 c1; clear E1'. split.
    + intros r Hr. apply in_app_or in Hr as [Hr|Hr];
        [|apply (indented_head added); auto; discriminate].
      destruct (symbolRow_out _ _ _ _ _ _ E2) as [-> | (cells & ->)];
        simpl in Hr; intuition (subst; discriminate).
    + eapply symbolRow_stderr; [exact E2|]. simpl. apply in_or_app.
      right. now left.
  - pose proof E2 as E2'. rewrite symbolRow_cases, Hfind, Ha in E2'.
    inversion E2'; subst out2 c2; clear E2'. split.
    + intros r Hr. apply in_app_or in Hr as [Hr|Hr];
        [|apply (indented_head added); auto; discriminate].
      destruct (symbolRow_out _ _ _ _ _ _ E1) as [-> | (cells & ->)];
        simpl in Hr; intuition (subst; discriminate).
    + simpl. apply in_or_app. right. now left.
Qed.

(** C3 (amended).  A lookup by name returns the record of the first line of
    the input that parses to a register of that name, compared without
    regard to case: the first occurrence wins. *)
Theorem C3_first_occurrence_wins (lines : list jsstring) (reg : jsstring)
    (r : RegisterInfo) :
  findRegister (parseRegisters lines) reg = Some r <->
  exists before l after,
    lines = before ++ l :: after /\ parseRegisterLine l = Some r /\
    named reg r /\
    forall l' r', In l' before -> parseRegisterLine l' = Some r' ->
                  ~ named reg r'.
Proof.
  rewrite findRegister_first. split.
  - intros (pre & post & E & Hr & Hpre).
    apply parseRegisters_split in E
      as (before & l & after & -> & El & <- & <-).
    exists before, l, after. repeat split; auto.
    intros l' r' Hl' El'. apply Hpre. apply parseRegisters_In. eauto.
  - intros (before & l & after & -> & El & Hr & Hbefore).
    exists (parseRegisters before), (parseRegisters after).
    rewrite parseRegisters_app. simpl. rewrite El. repeat split; auto.
    intros x Hx. apply parseRegisters_In in Hx as (l' & Hl' & El'). eauto.
Qed.

(** C4 (amended).  The register parser returns the record (NAME, value)
    for exactly the lines made of a non-empty alphanumeric name, any amount
    of white space (also none), a colon, at least one white-space
    character, [0x] and at least one hex digit; every other line is no
    match. *)
Theorem C4_register_line_shape (l : jsstring) (r : RegisterInfo) :
  parseRegisterLine l = Some r <->
  exists name ws1 ws2 hex,
    (forallb alnum name = true /\ name <> [] /\
     forallb whiteSpace ws1 = true /\
     forallb whiteSpace ws2 = true /\ ws2 <> [] /\
     forallb hexDigit hex = true /\ hex <> []) /\
    l = name ++ ws1 ++ str ":" ++ ws2 ++ str "0x" ++ hex /\
    r = {| register := name; value := parseInt hex 16 |}.
Proof. apply parseRegisterLine_iff. Qed.

(** C5 (amended).  The value of an accepted register line is the integer
    its hex digits denote, as a double; it is an unsigned 32-bit integer
    when the line has at most eight hex digits. *)
Theorem C5_register_value (l : jsstring) (r : RegisterInfo) :
  parseRegisterLine l = Some r ->
  exists name ws1 ws2 hex,
    registerShape name ws1 ws2 hex /\
    l = registerLine name ws1 ws2 hex /\
    value r = roundToDouble (hexValue hex) /\ 0 <= hexValue hex /\
    ((List.length hex <= 8)%nat ->
     value r = Num (hexValue hex) /\ hexValue hex < 2 ^ 32).
Proof.
  intros H. apply parseRegisterLine_iff in H
    as (name & ws1 & ws2 & hex & Hs & -> & ->).
  exists name, ws1, ws2, hex.
  destruct Hs as (Hn & Hn0 & Hw1 & Hw2 & Hw20 & Hh & Hh0).
  repeat split; auto.
  - simpl. now apply parseInt_hex.
  - now apply hexValue_bounds.
  - simpl. now apply parseInt_hex_32bit.
  - now apply parseInt_hex_32bit.
Qed.

(** C6.  A backtrace line whose PC the symbolizer does not resolve writes
    one diagnostic to [console.error], leaves the report output and the
    backtrace table as they are, and the loop goes on with the next
    line. *)
Theorem C6_unresolved_frame_skipped (l : jsstring) (m : matchResult)
    (rest : list jsstring) (btLines : list row) (c : console) :
  exec backtracePattern l = Some m ->
  addr2Line (pc (backtraceInfo m)) = Unresolved ->
  let c' :=
    {| stdout := stdout c;
       stderr := stderr c ++ [str "Failed to lookup address: "
                              ++ toString16 (pc (backtraceInfo m))] |} in
  parseBacktraceLine l c = (Ok None, c') /\
  backtraceLoop (l :: rest) btLines c = backtraceLoop rest btLines c'.
Proof.
  intros Em Ea c'. pose proof (parseBacktraceLine_unresolved l m c Em Ea) as E.
  split; [exact E|].
  cbn [backtraceLoop]. unfold bind at 1. now rewrite E.
Qed.

(** C7.  A line that starts with the marker [recv: ], in any mix of upper
    and lower case, is normalised to the line without the marker, so both
    parsers give for it what they give for the line without the marker. *)
Theorem C7_recv_marker_stripped (p l : jsstring) :
  recvCasing p ->
  normalize (p ++ l) = l /\
  parseRegisterLine (normalize (p ++ l)) = parseRegisterLine l /\
  parseBacktraceLine (normalize (p ++ l)) = parseBacktraceLine l.
Proof.
  intros H. rewrite (normalize_recv p l H). auto.
Qed.

(** C8.  [printAsTable] writes to the report output the text determined by
    the rows alone, one line per row; the width of a column is the largest
    length among the cells the rows have at that column; a row is rendered
    as its own cells, each followed by spaces up to the column width and
    two more. *)
Theorem C8_table_rendering (lines : list row) :
  (forall c,
     printAsTable lines c =
     (Ok tt, {| stdout := stdout c ++ renderTable lines; stderr := stderr c |}))
  /\ (forall l i cell,
        In l lines -> cellAt l i = Some cell ->
        exists w, getAt (columnWidths lines) i = Some w /\
                  (List.length cell <= w)%nat)
  /\ (forall i w,
        getAt (columnWidths lines) i = Some w ->
        exists l cell,
          In l lines /\ cellAt l i = Some cell /\ List.length cell = w)
  /\ List.length (renderTable lines) = List.length lines
  /\ (forall n l,
        nth_error lines n = Some l ->
        exists ws,
          Forall2 (fun cell w => (List.length cell <= w)%nat) l ws /\
          (forall k w, nth_error ws k = Some w ->
                       getAt (columnWidths lines) k = Some w) /\
          nth_error (renderTable lines) n =
          Some (List.concat (List.map paddedCell (combine l ws)))).
Proof.
  split; [|split; [|split; [|split]]].
  - intros c. apply logLines_spec.
  - intros l i cell Hl Hc. now apply (widths_cover lines [] l).
  - intros i w H. apply widths_attained in H as [H|H]; auto.
    now rewrite getAt_nil in H.
  - unfold renderTable. now rewrite length_map.
  - intros n l Hn.
    destruct (formatLine_cells (columnWidths lines) l 0 []) as (ws & Hws & Hget & Hfmt).
    { intros k cell Hk. apply (widths_cover lines [] l); auto.
      eapply nth_error_In; eauto. }
    exists ws. repeat split; auto.
    unfold renderTable. rewrite (map_nth_error _ _ _ Hn). now rewrite Hfmt.
Qed.

(** ** Further properties of the program *)

(** *** Hexadecimal output *)

Lemma digitChar_hex (d : Z) :
  0 <= d < 16 ->
  digitValue 16 (digitChar d) = Some d /\ lowerHexDigit (digitChar d) = true.
Proof.
  intros H.
  assert (E : d = 0 \/ d = 1 \/ d = 2 \/ d = 3 \/ d = 4 \/ d = 5 \/ d = 6
              \/ d = 7 \/ d = 8 \/ d = 9 \/ d = 10 \/ d = 11 \/ d = 12
              \/ d = 13 \/ d = 14 \/ d = 15) by lia.
  repeat (destruct E as [E|E]; [subst d; split; reflexivity|]).
  subst d; split; reflexivity.
Qed.

Lemma lowerHex_hex (c : codeunit) : lowerHexDigit c = true -> hexDigit c = true.
Proof.
  unfold lowerHexDigit, hexDigit.
  destruct (inRange "0" "9" c), (inRange "A" "F" c), (inRange "a" "f" c); auto.
Qed.

Lemma forallb_lowerHex_hex (s : jsstring) :
  forallb lowerHexDigit s = true -> forallb hexDigit s = true.
Proof.
  rewrite !forallb_forall. intros H c Hc. apply lowerHex_hex. auto.
Qed.

Lemma digitsOf_acc (fuel : nat) (radix n : Z) (acc : jsstring) :
  digitsOf fuel radix n acc = digitsOf fuel radix n [] ++ acc.
Proof.
  revert n acc; induction fuel as [|f IH]; intros n acc; simpl; auto.
  destruct (n / radix =? 0); auto.
  rewrite (IH _ (_ :: acc)), (IH _ [_]). now rewrite <- app_assoc.
Qed.

Lemma digitPrefix_app (a b : jsstring) :
  forallb hexDigit a = true ->
  digitPrefix 16 (a ++ b) = digitPrefix 16 a ++ digitPrefix 16 b.
Proof.
  induction a as [|c a IH]; simpl; intros H; auto.
  apply andb_true_iff in H as [Hc H].
  destruct (hexDigit_value c Hc) as (d & -> & _). simpl. now rewrite IH.
Qed.

Lemma mathInt_shift (ds : list Z) (acc : Z) :
  fold_left (fun a d => a * 16 + d) ds acc =
  acc * 16 ^ Z.of_nat (List.length ds)
  + fold_left (fun a d => a * 16 + d) ds 0.
Proof.
  revert acc; induction ds as [|d ds IH]; intros acc.
  - simpl. lia.
  - cbn [fold_left List.length]. rewrite Nat2Z.inj_succ, Z.pow_succ_r by lia.
    rewrite (IH (acc * 16 + d)), (IH (0 * 16 + d)). lia.
Qed.

Lemma hexValue_app (a b : jsstring) :
  forallb hexDigit a = true -> forallb hexDigit b = true ->
  hexValue (a ++ b) = hexValue a * 16 ^ Z.of_nat (List.length b) + hexValue b.
Proof.
  intros Ha Hb. unfold hexValue, mathInt.
  rewrite digitPrefix_app, fold_left_app, mathInt_shift by auto.
  destruct (digitPrefix_hex b Hb) as [-> _]. reflexivity.
Qed.

Lemma hexValue_zeros (k : nat) :
  forallb lowerHexDigit (repeat (chr "0") k) = true /\
  hexValue (repeat (chr "0") k) = 0.
Proof.
  induction k as [|k [IH1 IH2]]; [split; reflexivity|].
  change (repeat (chr "0") (S k)) with ([chr "0"] ++ repeat (chr "0") k).
  split; [rewrite forallb_app, IH1; reflexivity|].
  rewrite hexValue_app; auto using forallb_lowerHex_hex.
Qed.

(** The digits [toString(16)] produces for [n] are lower-case hex digits,
    denote [n], and are no more than [n] needs. *)
Lemma digitsOf_hex (f : nat) (n : Z) :
  0 <= n < 16 ^ Z.of_nat (S f) ->
  forallb lowerHexDigit (digitsOf (S f) 16 n []) = true /\
  hexValue (digitsOf (S f) 16 n []) = n /\
  digitsOf (S f) 16 n [] <> [] /\
  forall k, n < 16 ^ Z.of_nat (S k) ->
            (List.length (digitsOf (S f) 16 n []) <= S k)%nat.
Proof.
  revert n; induction f as [|f IH]; intros n Hn.
  - change (16 ^ Z.of_nat 1) with 16 in Hn.
    change (digitsOf 1 16 n [])
      with (if n / 16 =? 0 then [digitChar (n mod 16)]
            else [digitChar (n mod 16)]).
    rewrite Z.mod_small by lia.
    destruct (digitChar_hex n Hn) as [Hv Hl].
    assert (E : (if n / 16 =? 0 then [digitChar n] else [digitChar n])
                = [digitChar n]) by (destruct (n / 16 =? 0); auto).
    rewrite E. repeat split.
    + simpl. now rewrite Hl.
    + unfold hexValue, mathInt. simpl. rewrite Hv. simpl. lia.
    + discriminate.
    + intros k _. simpl. lia.
  - change (digitsOf (S (S f)) 16 n [])
      with (if n / 16 =? 0 then [digitChar (n mod 16)]
            else digitsOf (S f) 16 (n / 16) [digitChar (n mod 16)]).
    assert (Hm : 0 <= n mod 16 < 16) by (apply Z.mod_pos_bound; lia).
    destruct (digitChar_hex _ Hm) as [Hv Hl].
    destruct (Z.eqb_spec (n / 16) 0) as [E|E].
    + assert (n = n mod 16) by (rewrite (Z.div_mod n 16) at 1 by lia; lia).
      repeat split.
      * simpl. now rewrite Hl.
      * unfold hexValue, mathInt. simpl. rewrite Hv. simpl. lia.
      * discriminate.
      * intros k _. simpl. lia.
    + rewrite digitsOf_acc.
      assert (Hq : 0 <= n / 16 < 16 ^ Z.of_nat (S f)).
      { split; [apply Z.div_pos; lia|].
        apply Z.div_lt_upper_bound; [lia|].
        rewrite (Nat2Z.inj_succ (S f)), Z.pow_succ_r in Hn by lia. lia. }
      destruct (IH _ Hq) as (H1 & H2 & H3 & H4).
      repeat split.
      * rewrite forallb_app, H1. simpl. now rewrite Hl.
      * rewrite hexValue_app; auto using forallb_lowerHex_hex;
          [|simpl; now rewrite (lowerHex_hex _ Hl)].
        rewrite H2. unfold hexValue at 1, mathInt. simpl. rewrite Hv. simpl.
        change (16 ^ Z.of_nat 1) with 16.
        rewrite (Z.div_mod n 16) at 3 by lia. lia.
      * intros E'. apply app_eq_nil in E' as [_ E']. discriminate.
      * intros k Hk. rewrite length_app. cbn [List.length].
        destruct k as [|k].
        { change (16 ^ Z.of_nat 1) with 16 in Hk.
          assert (n / 16 = 0) by (apply Z.div_small; lia). contradiction. }
        assert (n / 16 < 16 ^ Z.of_nat (S k)).
        { apply Z.div_lt_upper_bound; [lia|].
          rewrite (Nat2Z.inj_succ (S k)), Z.pow_succ_r in Hk by lia.
          exact Hk. }
        specialize (H4 k H). lia.
Qed.

Lemma natToString_fuel (n : Z) :
  0 <= n -> n < 16 ^ Z.of_nat (S (Z.to_nat (Z.log2 n))).
Proof.
  intros Hn. rewrite Nat2Z.inj_succ, Z2Nat.id by apply Z.log2_nonneg.
  destruct (Z.eq_dec n 0) as [->|Hz]; [reflexivity|].
  assert (H : n < 2 ^ Z.succ (Z.log2 n)) by (apply Z.log2_spec; lia).
  assert (2 ^ Z.succ (Z.log2 n) <= 16 ^ Z.succ (Z.log2 n)).
  { apply Z.pow_le_mono_l. lia. }
  lia.
Qed.

(** [numToHex] of a non-negative integer: [0x], then the hex digits of the
    number in lower case, padded with zeros to eight digits, and no more
    than eight when the number is below 2^32. *)
Lemma numToHex_digits (v : Z) :
  0 <= v ->
  exists digits,
    numToHex (Num v) = str "0x" ++ digits /\
    forallb lowerHexDigit digits = true /\ digits <> [] /\
    hexValue digits = v /\ (8 <= List.length digits)%nat /\
    (v < 2 ^ 32 -> List.length digits = 8%nat).
Proof.
  intros Hv. unfold numToHex, toString16, intToString.
  replace (v <? 0) with false by (symmetry; apply Z.ltb_ge; lia).
  unfold natToString.
  destruct (digitsOf_hex _ v (conj Hv (natToString_fuel v Hv)))
    as (H1 & H2 & H3 & H4).
  set (s := digitsOf _ 16 v []) in *.
  exists (padStart0 s 8). unfold padStart0.
  destruct (hexValue_zeros (8 - List.length s)) as [Z1 Z2].
  repeat split.
  - now rewrite forallb_app, Z1, H1.
  - intros E. apply app_eq_nil in E as [_ E]. auto.
  - rewrite hexValue_app; auto using forallb_lowerHex_hex.
    rewrite Z2, H2. lia.
  - rewrite length_app, repeat_length. lia.
  - intros Hlt. rewrite length_app, repeat_length.
    specialize (H4 7%nat Hlt). lia.
Qed.

(** X1.  For a value below 2^32, [numToHex] gives [0x] followed by exactly
    eight lower-case hex digits that denote the value. *)
Theorem X1_numToHex_format (v : Z) :
  0 <= v < 2 ^ 32 ->
  exists digits,
    numToHex (Num v) = str "0x" ++ digits /\
    List.length digits = 8%nat /\
    forallb lowerHexDigit digits = true /\
    hexValue digits = v.
Proof.
  intros [H0 H1].
  destruct (numToHex_digits v H0) as (digits & E & Hl & _ & Hv & _ & Hlen).
  exists digits. auto.
Qed.

(** X2.  What [numToHex] prints is read back by the register parser: a
    register line whose value part is [numToHex] of an integer below 2^53
    parses to that integer. *)
Theorem X2_numToHex_parses_back (name ws1 ws2 : jsstring) (v : Z) :
  forallb alnum name = true -> name <> [] ->
  forallb whiteSpace ws1 = true ->
  forallb whiteSpace ws2 = true -> ws2 <> [] ->
  0 <= v < 2 ^ 53 ->
  parseRegisterLine (name ++ ws1 ++ str ":" ++ ws2 ++ numToHex (Num v))
  = Some {| register := name; value := Num v |}.
Proof.
  intros Hn Hn0 Hw1 Hw2 Hw20 [H0 H1].
  destruct (numToHex_digits v H0) as (digits & E & Hl & Hd0 & Hv & _ & _).
  rewrite E. apply parseRegisterLine_iff.
  exists name, ws1, ws2, digits.
  pose proof (forallb_lowerHex_hex _ Hl) as Hh.
  repeat split; auto.
  rewrite parseInt_hex, Hv by auto.
  unfold roundToDouble.
  now replace (v <? 2 ^ 53) with true by (symmetry; apply Z.ltb_lt; lia).
Qed.

(** *** Backtrace lines *)

Lemma matchHere_lit_fail (a : ascii) (re : regex) (pos : nat) (c : codeunit)
    (rest : jsstring) (caps : list jsstring) :
  c <> chr a -> matchHere (lit a :: re) pos (c :: rest) caps = None.
Proof.
  intros H. simpl. destruct (N.eqb_spec (chr a) c); congruence.
Qed.

(** Text without the first literal of the pattern is skipped. *)
Lemma search_skip (a : ascii) (re : regex) (pre s : jsstring) (pos : nat) :
  ~ In (chr a) pre ->
  search (lit a :: re) pos (pre ++ s)
  = search (lit a :: re) (pos + List.length pre) s.
Proof.
  revert pos; induction pre as [|c pre IH]; intros pos H.
  - simpl. now rewrite Nat.add_0_r.
  - change ((c :: pre) ++ s) with (c :: pre ++ s). cbn [search].
    rewrite matchHere_lit_fail by (intros ->; apply H; now left).
    rewrite IH by (intros Hin; apply H; now right).
    cbn [List.length]. now rewrite Nat.add_succ_r.
Qed.

Lemma search_here (re : regex) (pos : nat) (s : jsstring)
    (caps : list jsstring) (rest : jsstring) :
  matchHere re pos s [] = Some (caps, rest) ->
  search re pos s = Some {| index := pos; groups := caps; after := rest |}.
Proof. intros H. destruct s; simpl; now rewrite H. Qed.

(** The fields captured from a backtrace entry, when no [#] precedes the
    entry and no hex digit follows it. *)
Lemma exec_backtraceEntry_fields (pre post pos name addr off pcs : jsstring) :
  backtraceShape pos name addr off pcs ->
  ~ In (chr "#") pre -> stops hexDigit post ->
  exec backtracePattern (pre ++ backtraceEntry pos name addr off pcs ++ post)
  = Some {| index := List.length pre;
            groups := [pos; name; addr; off; pcs];
            after := post |}.
Proof.
  intros (Hp & Hp0 & Hn & Hn0 & Ha & Ha0 & Ho & Ho0 & Hc & Hc0) Hpre Hpost.
  unfold exec. rewrite backtracePattern_atoms, search_skip by exact Hpre.
  apply search_here.
  unfold backtraceEntry.
  rewrite <- !app_assoc, !str_cons, !str_nil. simpl app.
  rewrite matchHere_lit.
  apply matchHere_capture_max;
    [discriminate|exact Hp0|exact Hp|simpl; char_arith|].
  rewrite !matchHere_lit.
  apply matchHere_capture_max;
    [discriminate|exact Hn0|exact Hn|simpl; char_arith|].
  rewrite !matchHere_lit.
  apply matchHere_capture_max;
    [discriminate|exact Ha0|exact Ha|simpl; char_arith|].
  rewrite !matchHere_lit.
  apply matchHere_capture_max;
    [discriminate|exact Ho0|exact Ho|simpl; char_arith|].
  rewrite !matchHere_lit.
  apply matchHere_capture_max;
    [discriminate|exact Hc0|exact Hc|exact Hpost|].
  reflexivity.
Qed.

(** X3.  A line made of text without [#], a backtrace entry and text that
    does not start with a hex digit yields the fields of the entry:
    position and offset read in decimal, the two addresses in hexadecimal,
    the name as written.  The symbolizer is asked for the PC, and its
    answer decides between a frame, a diagnostic and a thrown error. *)
Theorem X3_backtrace_fields (pre post pos nm addr off pcs : jsstring)
    (c : console) :
  backtraceShape pos nm addr off pcs ->
  ~ In (chr "#") pre -> stops hexDigit post ->
  parseBacktraceLine (pre ++ backtraceEntry pos nm addr off pcs ++ post) c =
  match addr2Line (parseInt pcs 16) with
  | Resolved r =>
      (Ok (Some {| a2l := r;
                   info := {| position := parseInt pos 10;
                              name := nm;
                              fnAddress := parseInt addr 16;
                              fnOffset := parseInt off 10;
                              pc := parseInt pcs 16 |} |}), c)
  | Unresolved =>
      (Ok None,
       {| stdout := stdout c;
          stderr := stderr c ++ [str "Failed to lookup address: "
                                 ++ toString16 (parseInt pcs 16)] |})
  | Rejected e => (Throw e, c)
  end.
Proof.
  intros Hs Hpre Hpost.
  pose proof (exec_backtraceEntry_fields pre post _ _ _ _ _ Hs Hpre Hpost) as E.
  unfold parseBacktraceLine. rewrite E.
  unfold bind, awaitAddr2Line, backtraceInfo, group. cbn [groups nth Nat.sub pc].
  destruct (addr2Line (parseInt pcs 16)); reflexivity.
Qed.

Lemma exec_backtrace_hash (l : jsstring) (m : matchResult) :
  exec backtracePattern l = Some m -> In (chr "#") l.
Proof.
  unfold exec. intros H.
  apply search_sound in H as (pre & s & -> & _ & H).
  rewrite backtracePattern_atoms in H.
  apply matchHere_lit_sound in H as (rest & -> & _).
  apply in_or_app. right. now left.
Qed.

(** X4.  No line is both a register line and a backtrace line: a line the
    register parser accepts does not match the backtrace pattern. *)
Theorem X4_register_line_not_backtrace (l : jsstring) (r : RegisterInfo)
    (c : console) :
  parseRegisterLine l = Some r ->
  exec backtracePattern l = None /\ parseBacktraceLine l c = (Ok None, c).
Proof.
  intros H.
  assert (E : exec backtracePattern l = None).
  { destruct (exec backtracePattern l) as [m|] eqn:E; auto.
    apply exec_backtrace_hash in E.
    apply parseRegisterLine_iff in H
      as (n & w1 & w2 & h & (Hn & _ & Hw1 & Hw2 & _ & Hh & _) & -> & _).
    unfold registerLine in E. rewrite !str_cons, !str_nil in E. simpl app in E.
    exfalso.
    repeat (apply in_app_or in E as [E|E] || destruct E as [E|E]);
      try (revert E; char_arith).
    - revert E. apply (forallb_not_in alnum); auto; char_arith.
    - revert E. apply (forallb_not_in whiteSpace); auto; char_arith.
    - revert E. apply (forallb_not_in whiteSpace); auto; char_arith.
    - revert E. apply (forallb_not_in hexDigit); auto; char_arith. }
  split; auto. now apply parseBacktraceLine_no_match.
Qed.

(** *** The decoder on arbitrary register values *)

Lemma toUint32_bounds (x : number) : 0 <= toUint32 x < 2 ^ 32.
Proof.
  destruct x; simpl; try (split; [discriminate|reflexivity]).
  apply Z.mod_pos_bound. reflexivity.
Qed.

Lemma bitAnd_low (x : number) (flag : number) :
  bitAnd x flag = bitAnd (Num (toUint32 x)) flag.
Proof.
  unfold bitAnd. f_equal. f_equal.
  cbn [toUint32]. symmetry. apply Z.mod_small. apply toUint32_bounds.
Qed.

Lemma checkFlag_low (x : number) (flag : Z) (name : jsstring) (extra : row)
    (out : list row) :
  checkFlag x flag name extra out =
  checkFlag (Num (toUint32 x)) flag name extra out.
Proof. unfold checkFlag. now rewrite bitAnd_low. Qed.

Lemma decodeCfsr_low (reg : RegisterInfo) (mmar bfar : option RegisterInfo)
    (out : list row) :
  decodeCfsr (Some reg) mmar bfar out =
  out ++ decodeSpec (toUint32 (value reg)) mmar bfar.
Proof.
  rewrite <- (decodeCfsr_spec
                {| register := register reg;
                   value := Num (toUint32 (value reg)) |})
    by (auto using toUint32_bounds).
  unfold decodeCfsr, memoryManagementFault, busFault, usageFault.
  cbn [value].
  rewrite !(checkFlag_low (value reg)), !(bitAnd_low (value reg)).
  reflexivity.
Qed.

Lemma decodeCfsr_from_empty (cfsrReg mmar bfar : option RegisterInfo)
    (out : list row) :
  decodeCfsr cfsrReg mmar bfar out = out ++ decodeCfsr cfsrReg mmar bfar [].
Proof.
  destruct cfsrReg as [reg|].
  - now rewrite (decodeCfsr_low reg mmar bfar out), (decodeCfsr_low reg mmar bfar []).
  - simpl. now rewrite app_nil_r.
Qed.

(** X5.  The decoder looks at the low 32 bits of the CFSR value only: the
    rows it pushes for any register value are those for the value taken
    modulo 2^32, and none for a value that is not finite. *)
Theorem X5_cfsr_low_32_bits (reg : RegisterInfo)
    (mmar bfar : option RegisterInfo) (out : list row) :
  decodeCfsr (Some reg) mmar bfar out =
  out ++ decodeSpec
           match value reg with
           | Num v => v mod 2 ^ 32
           | Infinity | NaN => 0
           end mmar bfar.
Proof. apply decodeCfsr_low. Qed.

(** *** The register table *)

Lemma registerRows_cases (registers : list RegisterInfo) (c : console) :
  match registerRows registers c with
  | (Ok rows, c') =>
      rows =
      registerHeader
      :: symbolRows (str "LR") (findRegister registers (str "LR"))
      ++ symbolRows (str "PC") (findRegister registers (str "PC"))
      ++ decodeCfsr (findRegister registers (str "CFSR"))
           (findRegister registers (str "MMAR"))
           (findRegister registers (str "BFAR")) []
      /\ stdout c' = stdout c
  | (Throw e, c') =>
      (exists reg,
         (findRegister registers (str "LR") = Some reg \/
          findRegister registers (str "PC") = Some reg) /\
         addr2Line (value reg) = Rejected e)
      /\ stdout c' = stdout c
  end.
Proof.
  unfold registerRows, bind. rewrite symbolRow_cases.
  destruct (findRegister registers (str "LR")) as [lr|] eqn:Elr.
  - destruct (addr2Line (value lr)) as [r| |e] eqn:Ea; cbn [symbolRows];
      rewrite ?Ea; [| |eauto].
    + rewrite symbolRow_cases.
      destruct (findRegister registers (str "PC")) as [pc'|] eqn:Epc.
      * destruct (addr2Line (value pc')) as [r'| |e'] eqn:Ea'; cbn [symbolRows];
          rewrite ?Ea'; unfold ret; [| |eauto];
          (split; [|reflexivity]); rewrite decodeCfsr_from_empty;
          unfold registerHeader; simpl; rewrite <- ?app_assoc; reflexivity.
      * unfold ret. split; [|reflexivity]. rewrite decodeCfsr_from_empty.
        reflexivity.
    + rewrite symbolRow_cases.
      destruct (findRegister registers (str "PC")) as [pc'|] eqn:Epc.
      * destruct (addr2Line (value pc')) as [r'| |e'] eqn:Ea'; cbn [symbolRows];
          rewrite ?Ea'; unfold ret; [| |eauto];
          (split; [|reflexivity]); rewrite decodeCfsr_from_empty;
          unfold registerHeader; simpl; rewrite <- ?app_assoc; reflexivity.
      * unfold ret. split; [|reflexivity]. rewrite decodeCfsr_from_empty.
        reflexivity.
  - rewrite symbolRow_cases.
    destruct (findRegister registers (str "PC")) as [pc'|] eqn:Epc.
    + destruct (addr2Line (value pc')) as [r'| |e'] eqn:Ea'; cbn [symbolRows];
        rewrite ?Ea'; unfold ret; [| |eauto];
        (split; [|reflexivity]); rewrite decodeCfsr_from_empty;
        unfold registerHeader; simpl; rewrite <- ?app_assoc; reflexivity.
    + unfold ret. split; [|reflexivity]. rewrite decodeCfsr_from_empty.
      reflexivity.
Qed.

(** X6.  The register table is the header row, then the LR row and the PC
    row, each present when the register was found and resolved, then the
    rows of the CFSR decoder; building it prints nothing.  It is not built
    only when the symbolizer throws on the value of LR or PC. *)
Theorem X6_register_table_layout (registers : list RegisterInfo)
    (c : console) :
  match registerRows registers c with
  | (Ok rows, c') =>
      rows =
      [str "Register"; str "Value"]
      :: symbolRows (str "LR") (findRegister registers (str "LR"))
      ++ symbolRows (str "PC") (findRegister registers (str "PC"))
      ++ decodeCfsr (findRegister registers (str "CFSR"))
           (findRegister registers (str "MMAR"))
           (findRegister registers (str "BFAR")) []
      /\ stdout c' = stdout c
  | (Throw e, c') =>
      (exists reg,
         (findRegister registers (str "LR") = Some reg \/
          findRegister registers (str "PC") = Some reg) /\
         addr2Line (value reg) = Rejected e)
      /\ stdout c' = stdout c
  end.
Proof. apply registerRows_cases. Qed.

(** *** The backtrace table and the whole run *)

Lemma console_eta (c : console) :
  {| stdout := stdout c; stderr := stderr c ++ [] |} = c.
Proof. destruct c. simpl. now rewrite app_nil_r. Qed.

Lemma backtraceLoop_rows (lines : list jsstring) (btLines : list row)
    (c : console) :
  (forall a e, addr2Line a <> Rejected e) ->
  backtraceLoop lines btLines c =
  (Ok (btLines ++ List.map frameRow (resolvedFrames lines)),
   {| stdout := stdout c; stderr := stderr c ++ failedLookups lines |}).
Proof.
  intros Hrej. revert btLines c.
  induction lines as [|l lines IH]; intros btLines c.
  - simpl. unfold ret. now rewrite app_nil_r, console_eta.
  - cbn [backtraceLoop resolvedFrames failedLookups]. unfold bind at 1.
    destruct (exec backtracePattern l) as [m|] eqn:Em.
    + destruct (addr2Line (pc (backtraceInfo m))) as [r| |e] eqn:Ea.
      * rewrite (parseBacktraceLine_resolved _ _ _ _ Em Ea), IH.
        cbn [List.map]. now rewrite <- app_assoc.
      * rewrite (parseBacktraceLine_unresolved _ _ _ Em Ea), IH.
        unfold logged. cbn [stdout stderr]. now rewrite <- app_assoc.
      * now apply Hrej in Ea.
    + rewrite (parseBacktraceLine_no_match _ _ Em). apply IH.
Qed.

(** X8.  When no symbolizer call throws, the backtrace table is the three
    heading rows followed by one row per line that matches the pattern and
    is resolved, in the order of the lines; each matching line that is not
    resolved adds one diagnostic, in the same order, and nothing is
    printed while the table is built. *)
Theorem X8_backtrace_rows_in_order (lines : list jsstring) (c : console) :
  (forall a e, addr2Line a <> Rejected e) ->
  backtraceRows lines c =
  (Ok ([ []; [str "Backtrace"];
         [str "#"; str "Function"; str "Address"; str "PC"; str "File:Line"] ]
       ++ List.map frameRow (resolvedFrames lines)),
   {| stdout := stdout c; stderr := stderr c ++ failedLookups lines |}).
Proof. intros H. now apply backtraceLoop_rows. Qed.

Lemma parseRegisters_none (lines : list jsstring) :
  (forall l, In l lines -> parseRegisterLine l = None) ->
  parseRegisters lines = [].
Proof.
  induction lines as [|l lines IH]; intros H; simpl; auto.
  rewrite (H l) by now left. apply IH. intros l' Hl'. apply H. now right.
Qed.

Lemma printAsTable_spec (lines : list row) (c : console) :
  printAsTable lines c =
  (Ok tt, {| stdout := stdout c ++ renderTable lines; stderr := stderr c |}).
Proof. apply logLines_spec. Qed.

(** X7.  A fault text in which no line is a register line or a backtrace
    line is not an error: the run prints the two tables with their heading
    rows only and writes no diagnostic. *)
Theorem X7_nothing_found_header_only (faultText : jsstring) (c : console) :
  (forall l, In l (splitLines faultText) ->
             parseRegisterLine (normalize l) = None /\
             exec backtracePattern (normalize l) = None) ->
  main faultText c =
  (Ok tt,
   {| stdout :=
        stdout c
        ++ [ str "Register  Value  ";
             str "";
             str "Backtrace  ";
             str "#          Function  Address  PC  File:Line  " ];
      stderr := stderr c |}).
Proof.
  intros H. unfold main.
  rewrite parseRegisters_none.
  2:{ intros l Hl. apply in_map_iff in Hl as (l0 & <- & Hl0). now apply H. }
  unfold bind at 1. unfold printRegisters, bind at 1.
  change (registerRows [] c) with (Ok [registerHeader], c).
  cbv beta iota. rewrite printAsTable_spec.
  unfold bind, backtraceRows. rewrite backtraceLoop_no_entries.
  2:{ intros l Hl. apply in_map_iff in Hl as (l0 & <- & Hl0). now apply H. }
  rewrite printAsTable_spec. cbn [stdout stderr].
  rewrite <- app_assoc. reflexivity.
Qed.

(** The backtrace loop prints nothing on the report output. *)
Lemma backtraceLoop_stdout (lines : list jsstring) (btLines : list row)
    (c c' : console) (r : outcome (list row)) :
  backtraceLoop lines btLines c = (r, c') -> stdout c' = stdout c.
Proof.
  revert btLines c; induction lines as [|l lines IH]; intros btLines c E.
  - inversion E. reflexivity.
  - cbn [backtraceLoop] in E. unfold bind at 1 in E.
    unfold parseBacktraceLine, bind, awaitAddr2Line in E.
    destruct (exec backtracePattern l) as [m|].
    + destruct (addr2Line (pc (backtraceInfo m))).
      * apply IH in E. exact E.
      * unfold console_error, ret in E. apply IH in E. exact E.
      * inversion E. reflexivity.
    + unfold ret in E. apply IH in E. exact E.
Qed.

(** X10.  A run prints the register table and then the backtrace table,
    each starting with its heading rows.  It ends early only when a
    symbolizer call throws, and has then printed nothing or the register
    table alone. *)
Theorem X10_main_output (faultText : jsstring) (c : console) :
  match main faultText c with
  | (Ok _, c') =>
      exists regRows frames,
        stdout c' =
        stdout c ++ renderTable ([str "Register"; str "Value"] :: regRows)
        ++ renderTable
             ([ []; [str "Backtrace"];
                [str "#"; str "Function"; str "Address"; str "PC";
                 str "File:Line"] ] ++ frames)
  | (Throw e, c') =>
      (exists a, addr2Line a = Rejected e) /\
      (stdout c' = stdout c \/
       exists regRows,
         stdout c' =
         stdout c ++ renderTable ([str "Register"; str "Value"] :: regRows))
  end.
Proof.
  unfold main, printRegisters.
  generalize (List.map normalize (splitLines faultText)) as lines.
  intros lines. unfold bind at 1. unfold bind at 1.
  pose proof (registerRows_cases (parseRegisters lines) c) as Hr.
  destruct (registerRows (parseRegisters lines) c) as [[rows|e] c1].
  - destruct Hr as [-> Hc1]. rewrite printAsTable_spec.
    unfold bind, backtraceRows.
    match goal with
    | |- context [backtraceLoop lines btHeader ?c2] =>
        pose proof (backtraceLoop_appends lines btHeader c2) as Hb;
        destruct (backtraceLoop lines btHeader c2) as [[rows2|e] c3] eqn:Eb
    end.
    + destruct Hb as (frames & ->). rewrite printAsTable_spec.
      apply backtraceLoop_stdout in Eb. cbn [stdout] in *.
      rewrite Eb, Hc1, <- app_assoc. eauto.
    + split; [exact Hb|]. right.
      apply backtraceLoop_stdout in Eb. cbn [stdout] in *.
      rewrite Eb, Hc1. eauto.
  - destruct Hr as [(reg & _ & Ha) Hc1]. split; eauto.
Qed.

(** *** Column alignment *)

Lemma formatLine_acc (w : widths) (cells : row) (i : nat) (s : jsstring) :
  formatLine w cells i s = s ++ formatLine w cells i [].
Proof.
  revert i s; induction cells as [|entry rest IH]; intros i s; simpl.
  - now rewrite app_nil_r.
  - rewrite (IH _ (s ++ _)), (IH _ (match getAt w i with
                                     | Some len => padEnd entry (len + 2)
                                     | None => entry
                                     end)).
    now rewrite <- app_assoc.
Qed.

Lemma formatLine_app (w : widths) (a b : row) (i : nat) (s : jsstring) :
  formatLine w (a ++ b) i s =
  formatLine w b (i + List.length a) (formatLine w a i s).
Proof.
  revert i s; induction a as [|entry a IH]; intros i s; simpl.
  - now rewrite Nat.add_0_r.
  - rewrite IH. now rewrite Nat.add_succ_r.
Qed.

Lemma padEnd_length (entry : jsstring) (b : nat) :
  (List.length entry <= b)%nat ->
  List.length (padEnd entry (b + 2)) = (b + 2)%nat.
Proof.
  intros H. unfold padEnd, spaces. rewrite length_app, repeat_length. lia.
Qed.

Lemma formatLine_length (w : widths) (cells : row) (i : nat) (s : jsstring) :
  (forall k cell, nth_error cells k = Some cell ->
     exists b, getAt w (i + k) = Some b /\ (List.length cell <= b)%nat) ->
  (List.length (formatLine w cells i s) + columnOffset w i
   = List.length s + columnOffset w (i + List.length cells))%nat.
Proof.
  revert i s; induction cells as [|entry rest IH]; intros i s H.
  - simpl. rewrite Nat.add_0_r. lia.
  - destruct (H 0%nat entry eq_refl) as (b & Hb & Hlen).
    rewrite Nat.add_0_r in Hb.
    cbn [formatLine List.length]. rewrite Hb.
    assert (Hrest : forall k cell, nth_error rest k = Some cell ->
              exists b', getAt w (S i + k) = Some b' /\
                         (List.length cell <= b')%nat).
    { intros k cell Hk. destruct (H (S k) cell Hk) as (b' & Hb' & Hl').
      exists b'. now rewrite Nat.add_succ_r in Hb'. }
    pose proof (IH (S i) (s ++ padEnd entry (b + 2)) Hrest) as E.
    rewrite length_app, padEnd_length in E by auto.
    cbn [columnOffset] in E. rewrite Hb in E.
    replace (i + S (List.length rest))%nat
      with (S i + List.length rest)%nat by lia.
    replace (S (b + 1)) with (b + 2)%nat by lia.
    lia.
Qed.

(** X9.  Columns line up: in the rendered table, a cell of column [k]
    starts at the same offset in every row that has that column, namely
    after the widths of the columns before it and two spaces for each; the
    length of a rendered row is the offset of the column after its last
    cell. *)
Theorem X9_columns_aligned (lines : list row) (n : nat) (l : row) :
  nth_error lines n = Some l ->
  (exists rendered,
     nth_error (renderTable lines) n = Some rendered /\
     List.length rendered = columnOffset (columnWidths lines) (List.length l))
  /\ forall k cell,
       nth_error l k = Some cell ->
       exists pre post,
         nth_error (renderTable lines) n = Some (pre ++ cell ++ post) /\
         List.length pre = columnOffset (columnWidths lines) k.
Proof.
  intros Hn.
  assert (Hin : In l lines) by (eapply nth_error_In; eauto).
  assert (Hcover : forall cells rest, l = cells ++ rest ->
            forall k cell, nth_error rest k = Some cell ->
            exists b, getAt (columnWidths lines) (List.length cells + k) = Some b
                      /\ (List.length cell <= b)%nat).
  { intros cells rest -> k cell Hk.
    apply (widths_cover lines [] (cells ++ rest)); auto.
    unfold cellAt. rewrite nth_error_app2 by lia.
    now replace (List.length cells + k - List.length cells)%nat with k by lia. }
  unfold renderTable. rewrite (map_nth_error _ _ _ Hn). split.
  - eexists. split; [reflexivity|].
    pose proof (formatLine_length (columnWidths lines) l 0 []
                  (Hcover [] l eq_refl)) as E.
    simpl in E. lia.
  - intros k cell Hk.
    destruct (nth_error_split _ _ Hk) as (l1 & l2 & -> & Hl1).
    destruct (Hcover l1 (cell :: l2) eq_refl 0%nat cell eq_refl)
      as (b & Hb & Hlen).
    rewrite Nat.add_0_r, Hl1 in Hb.
    rewrite formatLine_app. cbn [formatLine Nat.add]. rewrite Hl1, Hb.
    rewrite formatLine_acc. unfold padEnd at 1. rewrite <- !app_assoc.
    eexists _, _. split; [reflexivity|].
    assert (Hl1' : forall k' cell', nth_error l1 k' = Some cell' ->
              exists b', getAt (columnWidths lines) (0 + k') = Some b' /\
                         (List.length cell' <= b')%nat).
    { intros k' cell' Hk'.
      apply (widths_cover lines [] (l1 ++ cell :: l2)); auto.
      assert (Hlt : (k' < List.length l1)%nat)
        by (apply nth_error_Some; rewrite Hk'; discriminate).
      unfold cellAt. now rewrite nth_error_app1. }
    pose proof (formatLine_length (columnWidths lines) l1 0 [] Hl1') as E.
    simpl in E. rewrite Hl1 in E. lia.
Qed.

(** *** The output of the symbolizer process *)

Lemma greedy_none {R : Type} (p : codeunit -> bool)
    (k : jsstring -> jsstring -> option R) (s taken : jsstring) :
  (forall x y, s = x ++ y -> k (taken ++ x) y = None) ->
  greedy p k taken s = None.
Proof.
  revert taken; induction s as [|c s IH]; intros taken H.
  - simpl. specialize (H [] [] eq_refl). now rewrite app_nil_r in H.
  - assert (H0 : k taken (c :: s) = None).
    { specialize (H [] (c :: s) eq_refl). now rewrite app_nil_r in H. }
    simpl. destruct (p c); auto.
    rewrite IH; auto.
    intros x y ->. rewrite <- app_assoc. apply (H (c :: x) y). reflexivity.
Qed.

(** Backtracking: the repetition ends where the rest of the pattern
    matches and no later end lets it match. *)
Lemma greedy_last {R : Type} (p : codeunit -> bool)
    (k : jsstring -> jsstring -> option R) (m rest taken : jsstring) (r : R) :
  forallb p m = true ->
  k (taken ++ m) rest = Some r ->
  (forall x y, rest = x ++ y -> x <> [] -> k (taken ++ m ++ x) y = None) ->
  greedy p k taken (m ++ rest) = Some r.
Proof.
  revert taken; induction m as [|c m IH]; intros taken Hall Hk Hlater.
  - rewrite app_nil_r in Hk. simpl.
    destruct rest as [|c rest]; simpl; auto.
    destruct (p c); auto.
    rewrite greedy_none; auto.
    intros x y ->. rewrite <- app_assoc.
    apply (Hlater (c :: x) y); [reflexivity|discriminate].
  - simpl in Hall. apply andb_true_iff in Hall as [Hc Hall].
    simpl. rewrite Hc.
    rewrite (IH (taken ++ [c])); auto.
    + now rewrite <- app_assoc.
    + intros x y E Hx. rewrite <- app_assoc. now apply Hlater.
Qed.

Lemma fileLinePattern_atoms :
  Symbolizer.fileLinePattern =
  [Capture Symbolizer.notLineTerminator OneOrMore; lit ":";
   Capture digit OneOrMore].
Proof. reflexivity. Qed.

Lemma matchHere_capture_last (p : codeunit -> bool) (re : regex) (pos : nat)
    (m rest : jsstring) (caps : list jsstring)
    (r : list jsstring * jsstring) :
  forallb p m = true -> m <> [] ->
  matchHere re (pos + List.length m) rest (caps ++ [m]) = Some r ->
  (forall x y, rest = x ++ y -> x <> [] ->
     matchHere re (pos + List.length (m ++ x)) y (caps ++ [m ++ x]) = None) ->
  matchHere (Capture p OneOrMore :: re) pos (m ++ rest) caps = Some r.
Proof.
  intros Hall Hm Hk Hlater.
  change (matchHere (Capture p OneOrMore :: re) pos (m ++ rest) caps)
    with (greedy p
            (fun m0 rest0 =>
               match m0 with
               | [] => None
               | _ :: _ =>
                   matchHere re (pos + List.length m0) rest0 (caps ++ [m0])
               end) [] (m ++ rest)).
  apply greedy_last; auto.
  - cbn [app]. destruct m; [congruence|exact Hk].
  - intros x y E Hx. cbn [app].
    destruct (m ++ x) eqn:Em.
    + apply app_eq_nil in Em as [Em _]. congruence.
    + rewrite <- Em. now apply Hlater.
Qed.

(** In [path:digits] the greedy [.+] is cut back to the last colon. *)
Lemma exec_fileLine (path digits : jsstring) :
  forallb Symbolizer.notLineTerminator path = true -> path <> [] ->
  forallb digit digits = true -> digits <> [] ->
  exec Symbolizer.fileLinePattern (path ++ str ":" ++ digits)
  = Some {| index := 0; groups := [path; digits]; after := [] |}.
Proof.
  intros Hp Hp0 Hd Hd0. unfold exec. apply search_here.
  rewrite fileLinePattern_atoms, str_cons, str_nil. simpl app.
  apply matchHere_capture_last; auto.
  - rewrite matchHere_lit.
    rewrite <- (app_nil_r digits) at 1.
    apply matchHere_capture_max; [discriminate|exact Hd0|exact Hd|exact I|].
    reflexivity.
  - intros x y E Hx.
    destruct x as [|c0 x]; [congruence|]. inversion E; subst.
    rewrite forallb_app in Hd. apply andb_true_iff in Hd as [_ Hy].
    destruct y as [|d y]; [reflexivity|].
    apply matchHere_lit_fail.
    simpl in Hy. apply andb_true_iff in Hy as [Hd' _]. revert Hd'. char_arith.
Qed.

Lemma notLineTerminator_breaks (c : codeunit) :
  Symbolizer.notLineTerminator c = true -> c <> 10%N /\ c <> 13%N.
Proof.
  unfold Symbolizer.notLineTerminator.
  rewrite negb_true_iff, !orb_false_iff, !N.eqb_neq. tauto.
Qed.

Lemma splitNewlines_cons (c : codeunit) (s : jsstring) :
  c <> 10%N -> c <> 13%N ->
  Symbolizer.splitNewlines (c :: s) =
  match Symbolizer.splitNewlines s with
  | l :: ls => (c :: l) :: ls
  | [] => [[c]]
  end.
Proof.
  intros H10 H13. cbn [Symbolizer.splitNewlines].
  destruct (N.eqb_spec c 10); [contradiction|].
  destruct (N.eqb_spec c 13); [contradiction|]. reflexivity.
Qed.

Lemma splitNewlines_line (a sep s : jsstring) :
  forallb Symbolizer.notLineTerminator a = true -> lineBreak sep ->
  Symbolizer.splitNewlines (a ++ sep ++ s) = a :: Symbolizer.splitNewlines s.
Proof.
  intros Ha Hsep. induction a as [|c a IH].
  - destruct Hsep as [-> | ->]; reflexivity.
  - simpl in Ha. apply andb_true_iff in Ha as [Hc Ha].
    apply notLineTerminator_breaks in Hc as [H10 H13].
    change ((c :: a) ++ sep ++ s) with (c :: a ++ sep ++ s).
    rewrite splitNewlines_cons, IH by auto. reflexivity.
Qed.

Lemma splitNewlines_last (a : jsstring) :
  forallb Symbolizer.notLineTerminator a = true ->
  Symbolizer.splitNewlines a = [a].
Proof.
  intros Ha. induction a as [|c a IH]; [reflexivity|].
  simpl in Ha. apply andb_true_iff in Ha as [Hc Ha].
  apply notLineTerminator_breaks in Hc as [H10 H13].
  rewrite splitNewlines_cons, IH by auto. reflexivity.
Qed.

Lemma splitNewlines_no_newline (s : jsstring) :
  ~ In 10%N s -> Symbolizer.splitNewlines s = [s].
Proof.
  induction s as [|c s IH]; intros H; [reflexivity|].
  assert (Hc : c <> 10%N) by (intros ->; apply H; now left).
  assert (Hs : ~ In 10%N s) by (intros Hin; apply H; now right).
  cbn [Symbolizer.splitNewlines]. rewrite (IH Hs).
  destruct (N.eqb_spec c 10); [contradiction|].
  destruct (N.eqb_spec c 13); auto.
  destruct s as [|d s]; auto.
  destruct (N.eqb_spec d 10); auto.
  subst d. exfalso. apply Hs. now left.
Qed.

(** X11.  From the two lines the process prints, the function name is the
    first line; the second line is cut at its last colon into the file path
    and the decimal line number, so a path with colons of its own (a drive
    letter) is read whole. *)
Theorem X11_addr2line_output (basename : jsstring -> jsstring)
    (fn sep path digits tail : jsstring) :
  forallb Symbolizer.notLineTerminator fn = true -> lineBreak sep ->
  forallb Symbolizer.notLineTerminator path = true -> path <> [] ->
  forallb digit digits = true -> digits <> [] ->
  tail = [] \/ (exists sep' rest, lineBreak sep' /\ tail = sep' ++ rest) ->
  Symbolizer.readOutput basename
    (fn ++ sep ++ path ++ str ":" ++ digits ++ tail)
  = Some {| filePath := path;
            fileName := match basename path with
                        | [] => path
                        | _ :: _ => basename path
                        end;
            line := parseInt digits 10;
            function := fn |}.
Proof.
  intros Hfn Hsep Hp Hp0 Hd Hd0 Htail.
  assert (Hline : forallb Symbolizer.notLineTerminator
                    (path ++ str ":" ++ digits) = true).
  { rewrite !forallb_app, Hp. simpl.
    rewrite forallb_forall in *. intros c Hc. specialize (Hd c Hc).
    unfold Symbolizer.notLineTerminator. revert Hd. char_arith. }
  assert (Hsplit : exists more,
            Symbolizer.splitNewlines
              (fn ++ sep ++ path ++ str ":" ++ digits ++ tail)
            = fn :: (path ++ str ":" ++ digits) :: more).
  { rewrite splitNewlines_line by auto.
    destruct Htail as [-> | (sep' & rest & Hsep' & ->)].
    - rewrite app_nil_r, splitNewlines_last by auto. eauto.
    - replace (path ++ str ":" ++ digits ++ sep' ++ rest)
        with ((path ++ str ":" ++ digits) ++ sep' ++ rest)
        by (now rewrite <- !app_assoc).
      rewrite splitNewlines_line by auto. eauto. }
  destruct Hsplit as (more & Hsplit).
  unfold Symbolizer.readOutput. rewrite Hsplit. cbn [nth].
  rewrite exec_fileLine by auto.
  unfold group. cbn [groups nth Nat.sub].
  destruct (basename path); reflexivity.
Qed.

(** X12.  Output without a line feed has no second line, and the lookup
    is unresolved. *)
Theorem X12_single_line_unresolved (basename : jsstring -> jsstring)
    (stdout : jsstring) :
  ~ In 10%N stdout ->
  Symbolizer.readOutput basename stdout = None.
Proof.
  intros H. unfold Symbolizer.readOutput.
  rewrite splitNewlines_no_newline by exact H. reflexivity.
Qed.

Lemma parseInt_decimal_number (digits : jsstring) :
  forallb digit digits = true -> digits <> [] -> parseInt digits 10 <> NaN.
Proof.
  intros Hd Hd0. destruct digits as [|c digits]; [congruence|].
  simpl in Hd. apply andb_true_iff in Hd as [Hc _].
  unfold parseInt. cbn [digitPrefix].
  assert (E : exists d, digitValue 10 c = Some d).
  { unfold digitValue.
    assert (48 <= Z.of_N c <= 57) by char_arith.
    replace ((48 <=? Z.of_N c) && (Z.of_N c <=? 57)) with true
      by (symmetry; apply andb_true_iff; split; apply Z.leb_le; lia).
    replace (Z.of_N c - 48 <? 10) with true by (symmetry; apply Z.ltb_lt; lia).
    eauto. }
  destruct E as (d & ->).
  unfold roundToDouble.
  repeat match goal with |- context [if ?b then _ else _] => destruct b end;
    discriminate.
Qed.

(** X13.  A resolved lookup never has an empty file path or file name, its
    path holds no line terminator, and its line is a number. *)
Theorem X13_resolved_fields (basename : jsstring -> jsstring)
    (stdout : jsstring) (r : Addr2LineResult) :
  Symbolizer.readOutput basename stdout = Some r ->
  filePath r <> [] /\ fileName r <> [] /\
  forallb Symbolizer.notLineTerminator (filePath r) = true /\
  line r <> NaN.
Proof.
  unfold Symbolizer.readOutput.
  destruct (exec _ _) as [m|] eqn:E; [|discriminate].
  intros Hr; inversion Hr; subst r; clear Hr. cbn [filePath fileName line].
  unfold exec in E. apply search_sound in E as (pre & s & _ & _ & E).
  rewrite fileLinePattern_atoms in E.
  apply matchHere_capture_sound in E as (g1 & r1 & -> & H1 & H10 & E).
  apply matchHere_lit_sound in E as (r2 & -> & E).
  apply matchHere_capture_sound in E as (g2 & r3 & -> & H2 & H20 & E).
  cbn [matchHere] in E. inversion E as [[Eg Ea]].
  unfold group. rewrite <- Eg. cbn [nth Nat.sub app].
  simpl in H10, H20. repeat split; auto.
  - destruct (basename g1); [auto|discriminate].
  - now apply parseInt_decimal_number.
Qed.

(** *** The fault log typed at the terminal *)

Lemma splitLines_line (a s : jsstring) :
  ~ In 10%N a -> splitLines (a ++ 10%N :: s) = a :: splitLines s.
Proof.
  induction a as [|c a IH]; intros H; [reflexivity|].
  simpl. destruct (N.eqb_spec c 10) as [->|_]; [exfalso; apply H; now left|].
  rewrite IH by (intros Hin; apply H; now right). reflexivity.
Qed.

Lemma splitLines_last (a : jsstring) :
  ~ In 10%N a -> splitLines a = [a].
Proof.
  induction a as [|c a IH]; intros H; [reflexivity|].
  simpl. destruct (N.eqb_spec c 10) as [->|_]; [exfalso; apply H; now left|].
  rewrite IH by (intros Hin; apply H; now right). reflexivity.
Qed.

Lemma splitLines_joinLines (ls : list jsstring) :
  (forall l, In l ls -> ~ In 10%N l) -> ls <> [] ->
  splitLines (joinLines ls) = ls.
Proof.
  induction ls as [|l ls IH]; intros H H0; [congruence|].
  destruct ls as [|l2 ls].
  - simpl. apply splitLines_last. apply H. now left.
  - change (joinLines (l :: l2 :: ls)) with (l ++ 10%N :: joinLines (l2 :: ls)).
    rewrite splitLines_line by (apply H; now left).
    rewrite IH; [reflexivity| |discriminate].
    intros l' Hl'. apply H. now right.
Qed.

Lemma readMultilineInput_collects (ls rest inputLines : list jsstring) :
  (forall l, In l ls -> l <> []) ->
  readMultilineInput (ls ++ [] :: rest) inputLines
  = Some (joinLines (inputLines ++ ls)) /\
  readMultilineInput ls inputLines = None.
Proof.
  revert inputLines; induction ls as [|l ls IH]; intros inputLines H.
  - simpl. now rewrite app_nil_r.
  - assert (Hl : l <> []) by (apply H; now left).
    destruct l as [|c l]; [congruence|].
    cbn [app readMultilineInput].
    destruct (IH (inputLines ++ [c :: l])) as [E1 E2].
    { intros l' Hl'. apply H. now right. }
    rewrite <- app_assoc in E1. split; [exact E1|exact E2].
Qed.

(** X14.  The text [readMultilineInput] returns is made of the lines typed
    before the first empty line, and splitting it at the line feeds, as
    [main] does, gives these lines back (a single empty line when none was
    typed); without an empty line the reading does not end. *)
Theorem X14_terminal_input_lines (ls rest : list jsstring) :
  (forall l, In l ls -> l <> [] /\ ~ In 10%N l) ->
  readMultilineInput ls [] = None /\
  exists text,
    readMultilineInput (ls ++ [] :: rest) [] = Some text /\
    splitLines text = match ls with [] => [[]] | _ :: _ => ls end.
Proof.
  intros H.
  destruct (readMultilineInput_collects ls rest [])
    as [E1 E2]; [intros l Hl; now apply H|].
  split; [exact E2|].
  exists (joinLines ls). split; [exact E1|].
  destruct ls as [|l ls]; [reflexivity|].
  apply splitLines_joinLines; [|discriminate].
  intros l' Hl'. now apply H.
Qed.

(** *** Line normalisation *)

(** X15.  Normalising a line either leaves it as it is or removes one
    marker [recv: ], in some mix of upper and lower case, from its start;
    nothing else of the line changes. *)
Theorem X15_normalize_strips_marker_only (l : jsstring) :
  normalize l = l \/
  exists p, toUpperCase p = str "RECV: " /\ l = p ++ normalize l.
Proof. apply normalize_only_recv. Qed.

(** *** The two patterns side by side *)


(** *** The backtrace table in the output *)

Lemma resolvedFrames_none (lines : list jsstring) :
  (forall l, In l lines -> exec backtracePattern l = None) ->
  resolvedFrames lines = [].
Proof.
  induction lines as [|l lines IH]; intros H; [reflexivity|].
  cbn [resolvedFrames]. rewrite (H l) by now left.
  apply IH. intros l' Hl'. apply H. now right.
Qed.

(** The first three lines of a rendered backtrace table. *)
Lemma btHeader_rendered (frames : list row) :
  exists w0 w1 w2 w3 w4 frameLines,
    renderTable (btHeader ++ frames) =
    [] :: paddedCell (str "Backtrace", w0)
    :: (paddedCell (str "#", w0) ++ paddedCell (str "Function", w1)
        ++ paddedCell (str "Address", w2) ++ paddedCell (str "PC", w3)
        ++ paddedCell (str "File:Line", w4))
    :: frameLines /\
    List.length frameLines = List.length frames /\
    (9 <= w0 /\ 8 <= w1 /\ 7 <= w2 /\ 2 <= w3 /\ 9 <= w4)%nat.
Proof.
  assert (Hcov : forall l j cell,
            In l btHeader -> cellAt l j = Some cell ->
            exists b, getAt (columnWidths (btHeader ++ frames)) j = Some b /\
                      (List.length cell <= b)%nat).
  { intros l j cell Hl Hc.
    apply (widths_cover (btHeader ++ frames) [] l); auto.
    apply in_or_app. now left. }
  destruct (Hcov [str "Backtrace"] 0%nat (str "Backtrace"))
    as (w0 & H0 & L0); [right; now left|reflexivity|].
  set (hdr := [str "#"; str "Function"; str "Address"; str "PC";
               str "File:Line"]) in *.
  assert (Hhdr : In hdr btHeader) by (right; right; now left).
  destruct (Hcov hdr 1%nat (str "Function") Hhdr eq_refl) as (w1 & H1 & L1).
  destruct (Hcov hdr 2%nat (str "Address") Hhdr eq_refl) as (w2 & H2 & L2).
  destruct (Hcov hdr 3%nat (str "PC") Hhdr eq_refl) as (w3 & H3 & L3).
  destruct (Hcov hdr 4%nat (str "File:Line") Hhdr eq_refl) as (w4 & H4 & L4).
  simpl in L0, L1, L2, L3, L4.
  unfold renderTable. cbv zeta.
  remember (columnWidths (btHeader ++ frames)) as W eqn:EW. clear EW Hcov.
  exists w0, w1, w2, w3, w4,
    (List.map (fun l => formatLine W l 0 []) frames).
  split; [|split; [now rewrite length_map|lia]].
  unfold btHeader. fold hdr. cbn [app List.map]. f_equal. f_equal; [|f_equal].
  - cbn [formatLine]. rewrite H0. cbn [app]. now apply padEnd_width.
  - unfold hdr. cbn [formatLine]. rewrite H0, H1, H2, H3, H4. cbn [app].
    rewrite !padEnd_width by (simpl; lia).
    now rewrite <- !app_assoc.
Qed.

(** C10 (amended).  Whenever no symbolizer call throws, whatever the fault
    text, the run ends by printing the backtrace table after the register
    table, and the rows of the backtrace table are an empty row, the row
    [Backtrace], the header row and then one row per resolved frame; the
    first three lines printed for it are an empty line, [Backtrace] and the
    five header cells, each cell padded to its column; without any
    backtrace line the table has these three rows only. *)
Theorem C10_backtrace_header (faultText : jsstring) (c : console) :
  (forall a e, addr2Line a <> Rejected e) ->
  exists registerTable frames w0 w1 w2 w3 w4 frameLines c',
    main faultText c = (Ok tt, c') /\
    stdout c' =
      stdout c ++ registerTable
      ++ renderTable
           ([] :: [str "Backtrace"]
            :: [str "#"; str "Function"; str "Address"; str "PC";
                str "File:Line"]
            :: frames) /\
    renderTable
      ([] :: [str "Backtrace"]
       :: [str "#"; str "Function"; str "Address"; str "PC"; str "File:Line"]
       :: frames)
    = [] :: paddedCell (str "Backtrace", w0)
      :: (paddedCell (str "#", w0) ++ paddedCell (str "Function", w1)
          ++ paddedCell (str "Address", w2) ++ paddedCell (str "PC", w3)
          ++ paddedCell (str "File:Line", w4))
      :: frameLines /\
    (9 <= w0 /\ 8 <= w1 /\ 7 <= w2 /\ 2 <= w3 /\ 9 <= w4)%nat /\
    frames =
      List.map frameRow
        (resolvedFrames (List.map normalize (splitLines faultText))) /\
    List.length frameLines = List.length frames /\
    ((forall l, In l (splitLines faultText) ->
                exec backtracePattern (normalize l) = None) ->
     frames = []).
Proof.
  intros Hrej. unfold main, printRegisters.
  set (lines := List.map normalize (splitLines faultText)).
  unfold bind at 1. unfold bind at 1.
  pose proof (registerRows_cases (parseRegisters lines) c) as Hr.
  destruct (registerRows (parseRegisters lines) c) as [[rows|e] c1].
  2:{ destruct Hr as [(reg & _ & Ha) _]. now apply Hrej in Ha. }
  destruct Hr as [_ Hc1]. rewrite printAsTable_spec.
  unfold bind, backtraceRows. rewrite backtraceLoop_rows by exact Hrej.
  rewrite printAsTable_spec. cbn [stdout stderr].
  destruct (btHeader_rendered (List.map frameRow (resolvedFrames lines)))
    as (w0 & w1 & w2 & w3 & w4 & frameLines & Hrender & Hlen & Hw).
  exists (renderTable rows), (List.map frameRow (resolvedFrames lines)),
    w0, w1, w2, w3, w4, frameLines.
  eexists. split; [reflexivity|]. cbn [stdout].
  split; [rewrite Hc1, <- app_assoc; reflexivity|].
  split; [exact Hrender|]. split; [exact Hw|]. split; [reflexivity|].
  split; [exact Hlen|].
  intros Hnone. rewrite resolvedFrames_none; [reflexivity|].
  intros l Hl. apply in_map_iff in Hl as (l0 & <- & Hl0). now apply Hnone.
Qed.

End Analyzer.

(** ** The claims at concrete inputs *)

(** CFSR [0x00010082] in the ARMv7-M layout: MMARVALID and DACCVIOL of the
    memory-management byte, UNDEFINSTR of the usage-fault half-word. *)
Lemma C1_cfsr_decoder_witness :
  0 <= 0x00010082 < 2 ^ 32 /\
  decodeCfsr armv7m
    (Some {| register := str "CFSR"; value := Num 0x00010082 |})
    (Some {| register := str "MMAR"; value := Num 0x20000000 |}) None [] =
  [ [str ""; str "Memory Management Fault"];
    [str ""; str "MMARVALID"; str "MMAR: 0x20000000"];
    [str ""; str "DACCVIOL"];
    [str ""; str "Usage Fault"];
    [str ""; str "UNDEFINSTR"] ].
Proof.
  assert (H : 0 <= 0x00010082 < 2 ^ 32)
    by (split; [intros E; discriminate E | reflexivity]).
  split; [exact H|].
  exact (proj1 (C1_cfsr_decoder armv7m
                  {| register := str "CFSR"; value := Num 0x00010082 |}
                  0x00010082
                  (Some {| register := str "MMAR"; value := Num 0x20000000 |})
                  None [] eq_refl H)).
Defined.

(** The claim that an unresolved LR keeps its row fails: with a symbolizer
    that resolves nothing, the table built from [LR : 0x08001234] is the
    header row alone. *)
Lemma C2_counterexample :
  findRegister [{| register := str "LR"; value := Num 0x08001234 |}] (str "LR")
  = Some {| register := str "LR"; value := Num 0x08001234 |} /\
  noSymbols (Num 0x08001234) = Unresolved /\
  registerRows armv7m noSymbols noExpo
    [{| register := str "LR"; value := Num 0x08001234 |}] emptyConsole
  = (Ok [[str "Register"; str "Value"]],
     {| stdout := []; stderr := [str "Failed to lookup LR: 8001234"] |}) /\
  ~ In [str "LR"; str "0x08001234"; str ""; str ""]
       [[str "Register"; str "Value"]].
Proof.
  repeat split; try reflexivity.
  intros [H|[]]. discriminate H.
Qed.

Lemma C2_unresolved_register_dropped_witness :
  (str "LR" = str "LR" \/ str "LR" = str "PC") /\
  (forall r,
     In r [[str "Register"; str "Value"]] -> hd_error r <> Some (str "LR")) /\
  In (str "Failed to lookup LR: 8001234") [str "Failed to lookup LR: 8001234"].
Proof.
  split; [left; reflexivity|].
  exact (C2_unresolved_register_dropped armv7m noSymbols noExpo
           [{| register := str "LR"; value := Num 0x08001234 |}]
           (str "LR") {| register := str "LR"; value := Num 0x08001234 |}
           emptyConsole
           {| stdout := []; stderr := [str "Failed to lookup LR: 8001234"] |}
           [[str "Register"; str "Value"]]
           (or_introl eq_refl) eq_refl eq_refl eq_refl).
Defined.

(** The claim that the last occurrence wins fails: of two CFSR lines the
    lookup returns the first. *)
Lemma C3_counterexample :
  let registers :=
    parseRegisters [str "CFSR : 0x00010000"; str "CFSR : 0x00000000"] in
  findRegister registers (str "CFSR")
  = Some {| register := str "CFSR"; value := Num 0x00010000 |} /\
  lastRegister registers (str "CFSR")
  = Some {| register := str "CFSR"; value := Num 0 |} /\
  findRegister registers (str "CFSR") <> lastRegister registers (str "CFSR").
Proof.
  repeat split; try reflexivity. intros H. discriminate H.
Qed.

(** The claim that no white space is needed on either side of the colon
    fails: a line without white space after the colon is no match. *)
Lemma C4_counterexample :
  forallb alnum (str "CFSR") = true /\
  forallb hexDigit (str "00010000") = true /\
  parseRegisterLine (str "CFSR" ++ str ":" ++ str "0x" ++ str "00010000")
  = None /\
  parseRegisterLine (str "CFSR" ++ str " " ++ str ":" ++ str "0x"
                     ++ str "00010000") = None.
Proof. repeat split; reflexivity. Qed.

(** The claim that the value is below 2^32 whatever the number of digits
    fails: nine digits give 2^32. *)
Lemma C5_counterexample :
  parseRegisterLine (str "R0 : 0x100000000")
  = Some {| register := str "R0"; value := Num 4294967296 |} /\
  ~ 4294967296 < 2 ^ 32.
Proof. split; [reflexivity|]. intros H. discriminate H. Qed.

Lemma C5_register_value_witness :
  parseRegisterLine (str "CFSR : 0x00010000")
  = Some {| register := str "CFSR"; value := Num 0x00010000 |} /\
  exists name ws1 ws2 hex,
    registerShape name ws1 ws2 hex /\
    str "CFSR : 0x00010000" = registerLine name ws1 ws2 hex /\
    Num 0x00010000 = roundToDouble (hexValue hex) /\ 0 <= hexValue hex /\
    ((List.length hex <= 8)%nat ->
     Num 0x00010000 = Num (hexValue hex) /\ hexValue hex < 2 ^ 32).
Proof.
  split; [reflexivity|].
  exact (C5_register_value (str "CFSR : 0x00010000")
           {| register := str "CFSR"; value := Num 0x00010000 |} eq_refl).
Defined.

Lemma C6_unresolved_frame_skipped_witness :
  let l := str "#2 : foo@0x0001C38C+182 PC:0x0001C443" in
  let m := {| index := 0;
              groups := [str "2"; str "foo"; str "0001C38C"; str "182";
                         str "0001C443"];
              after := [] |} in
  exec backtracePattern l = Some m /\
  oneSymbol (pc (backtraceInfo m)) = Unresolved /\
  parseBacktraceLine oneSymbol l emptyConsole
  = (Ok None,
     {| stdout := []; stderr := [str "Failed to lookup address: 1c443"] |}) /\
  backtraceLoop oneSymbol noExpo
    [l; str "#1 : unknown@0x0001C38C+182 PC:0x0001C442"] [] emptyConsole
  = backtraceLoop oneSymbol noExpo
      [str "#1 : unknown@0x0001C38C+182 PC:0x0001C442"] []
      {| stdout := []; stderr := [str "Failed to lookup address: 1c443"] |}.
Proof.
  intros l m. split; [reflexivity|]. split; [reflexivity|].
  exact (C6_unresolved_frame_skipped oneSymbol noExpo l m
           [str "#1 : unknown@0x0001C38C+182 PC:0x0001C442"] [] emptyConsole
           eq_refl eq_refl).
Defined.

(** The example of the specification: [Recv: CFSR : 0x00010000] and
    [CFSR : 0x00010000] parse identically. *)
Lemma C7_recv_marker_stripped_witness :
  recvCasing (str "Recv: ") /\
  normalize (str "Recv: CFSR : 0x00010000") = str "CFSR : 0x00010000" /\
  parseRegisterLine (normalize (str "Recv: CFSR : 0x00010000"))
  = parseRegisterLine (str "CFSR : 0x00010000") /\
  parseBacktraceLine oneSymbol (normalize (str "Recv: CFSR : 0x00010000"))
  = parseBacktraceLine oneSymbol (str "CFSR : 0x00010000").
Proof.
  split; [reflexivity|].
  exact (C7_recv_marker_stripped oneSymbol (str "Recv: ")
           (str "CFSR : 0x00010000") eq_refl).
Defined.



(** The claim that the backtrace output begins with the three rows for
    every input fails when a symbolizer call throws: the run is aborted at
    the first lookup, after the register table or before any output, and
    no row of the backtrace table is printed. *)
Lemma C10_counterexample :
  main armv7m throwingSymbols noExpo
    (str "#1 : unknown@0x0001C38C+182 PC:0x0001C442") emptyConsole
  = (Throw (str "Error: spawn arm-none-eabi-addr2line ENOENT"),
     {| stdout := [str "Register  Value  "]; stderr := [] |}) /\
  main armv7m throwingSymbols noExpo (str "LR : 0x0001C442") emptyConsole
  = (Throw (str "Error: spawn arm-none-eabi-addr2line ENOENT"),
     {| stdout := []; stderr := [] |}).
Proof. split; reflexivity. Qed.

Lemma C10_backtrace_header_witness :
  (forall a e, noSymbols a <> Rejected e) /\
  exists registerTable frames w0 w1 w2 w3 w4 frameLines c',
    main armv7m noSymbols noExpo (str "R0 : 0x1") emptyConsole = (Ok tt, c') /\
    stdout c' =
      stdout emptyConsole ++ registerTable
      ++ renderTable
           ([] :: [str "Backtrace"]
            :: [str "#"; str "Function"; str "Address"; str "PC";
                str "File:Line"]
            :: frames) /\
    renderTable
      ([] :: [str "Backtrace"]
       :: [str "#"; str "Function"; str "Address"; str "PC"; str "File:Line"]
       :: frames)
    = [] :: paddedCell (str "Backtrace", w0)
      :: (paddedCell (str "#", w0) ++ paddedCell (str "Function", w1)
          ++ paddedCell (str "Address", w2) ++ paddedCell (str "PC", w3)
          ++ paddedCell (str "File:Line", w4))
      :: frameLines /\
    (9 <= w0 /\ 8 <= w1 /\ 7 <= w2 /\ 2 <= w3 /\ 9 <= w4)%nat /\
    frames =
      List.map (frameRow noExpo)
        (resolvedFrames noSymbols
           (List.map normalize (splitLines (str "R0 : 0x1")))) /\
    List.length frameLines = List.length frames /\
    ((forall l, In l (splitLines (str "R0 : 0x1")) ->
                exec backtracePattern (normalize l) = None) ->
     frames = []).
Proof.
  assert (H : forall a e, noSymbols a <> Rejected e)
    by (intros a e E; discriminate E).
  split; [exact H|].
  exact (C10_backtrace_header armv7m noSymbols noExpo (str "R0 : 0x1")
           emptyConsole H).
Defined.

(** The whole pipeline on a small fault dump. *)
Example main_example :
  stdout
    (snd (main armv7m oneSymbol noExpo
            (str "Recv: CFSR : 0x00010000" ++ [10%N]
             ++ str "#1 : unknown@0x0001C38C+182 PC:0x0001C442")
            emptyConsole))
  = [ str "Register  Value        ";
      str "          Usage Fault  ";
      str "          UNDEFINSTR   ";
      str "";
      str "Backtrace  ";
      str "#          Function   Address             PC             File:Line      ";
      str "#1         process()  @ 0x0001c38c + 182  PC:0x0001c442  gcode.cpp:339  " ].
Proof. vm_compute. reflexivity. Qed.

(** ** The further properties at concrete inputs *)

Lemma X1_numToHex_format_witness :
  0 <= 1 < 2 ^ 32 /\
  exists digits,
    numToHex (Num 1) = str "0x" ++ digits /\
    List.length digits = 8%nat /\
    forallb lowerHexDigit digits = true /\
    hexValue digits = 1.
Proof.
  assert (H : 0 <= 1 < 2 ^ 32)
    by (split; [intros E; discriminate E | reflexivity]).
  split; [exact H|]. exact (X1_numToHex_format 1 H).
Defined.

Lemma X2_numToHex_parses_back_witness :
  0 <= 0x0800abcd < 2 ^ 53 /\
  parseRegisterLine
    (str "PC" ++ str " " ++ str ":" ++ str " " ++ numToHex (Num 0x0800abcd))
  = Some {| register := str "PC"; value := Num 0x0800abcd |}.
Proof.
  assert (H : 0 <= 0x0800abcd < 2 ^ 53)
    by (split; [intros E; discriminate E | reflexivity]).
  split; [exact H|].
  exact (X2_numToHex_parses_back (str "PC") (str " ") (str " ") 0x0800abcd
           eq_refl (fun E => ltac:(discriminate E)) eq_refl eq_refl
           (fun E => ltac:(discriminate E)) H).
Defined.

(** The example of the specification, inside other text. *)
Lemma X3_backtrace_fields_witness :
  parseBacktraceLine oneSymbol
    (str "T:21.3 "
     ++ backtraceEntry (str "1") (str "unknown") (str "0001C38C") (str "182")
          (str "0001C442")
     ++ str " ok") emptyConsole
  = (Ok (Some {| a2l := {| filePath := str "/src/gcode.cpp";
                           fileName := str "gcode.cpp";
                           line := Num 339;
                           function := str "process()" |};
                 info := {| position := Num 1;
                            name := str "unknown";
                            fnAddress := Num 0x1C38C;
                            fnOffset := Num 182;
                            pc := Num 0x1C442 |} |}), emptyConsole).
Proof.
  assert (Hb : backtraceShape (str "1") (str "unknown") (str "0001C38C")
                 (str "182") (str "0001C442"))
    by (repeat split; try reflexivity; intros E; discriminate E).
  assert (Hpre : ~ In (chr "#") (str "T:21.3 ")).
  { intros H. repeat (destruct H as [H|H]; [discriminate H|]). exact H. }
  exact (X3_backtrace_fields oneSymbol (str "T:21.3 ") (str " ok") (str "1")
           (str "unknown") (str "0001C38C") (str "182") (str "0001C442")
           emptyConsole Hb Hpre eq_refl).
Defined.

Lemma X4_register_line_not_backtrace_witness :
  parseRegisterLine (str "CFSR : 0x00010000")
  = Some {| register := str "CFSR"; value := Num 0x00010000 |} /\
  exec backtracePattern (str "CFSR : 0x00010000") = None /\
  parseBacktraceLine oneSymbol (str "CFSR : 0x00010000") emptyConsole
  = (Ok None, emptyConsole).
Proof.
  split; [reflexivity|].
  exact (X4_register_line_not_backtrace oneSymbol (str "CFSR : 0x00010000")
           {| register := str "CFSR"; value := Num 0x00010000 |}
           emptyConsole eq_refl).
Defined.

Lemma X7_nothing_found_header_only_witness :
  main armv7m noSymbols noExpo (str "Hard fault" ++ [10%N] ++ str "R0=1")
    emptyConsole
  = (Ok tt,
     {| stdout := [ str "Register  Value  ";
                    str "";
                    str "Backtrace  ";
                    str "#          Function  Address  PC  File:Line  " ];
        stderr := [] |}).
Proof.
  refine (X7_nothing_found_header_only armv7m noSymbols noExpo
            (str "Hard fault" ++ [10%N] ++ str "R0=1") emptyConsole _).
  intros l [<-|[<-|[]]]; split; reflexivity.
Defined.

Lemma X8_backtrace_rows_in_order_witness :
  (forall a e, noSymbols a <> Rejected e) /\
  backtraceRows noSymbols noExpo
    [str "#1 : unknown@0x0001C38C+182 PC:0x0001C442"; str "R0 : 0x1"]
    emptyConsole
  = (Ok [ []; [str "Backtrace"];
          [str "#"; str "Function"; str "Address"; str "PC";
           str "File:Line"] ],
     {| stdout := []; stderr := [str "Failed to lookup address: 1c442"] |}).
Proof.
  assert (H : forall a e, noSymbols a <> Rejected e)
    by (intros a e E; discriminate E).
  split; [exact H|].
  exact (X8_backtrace_rows_in_order noSymbols noExpo
           [str "#1 : unknown@0x0001C38C+182 PC:0x0001C442"; str "R0 : 0x1"]
           emptyConsole H).
Defined.

Lemma X9_columns_aligned_witness :
  let lines := [[str "Register"; str "Value"]; [str "LR"; str "0x08001234"]] in
  nth_error lines 1 = Some [str "LR"; str "0x08001234"] /\
  (exists rendered,
     nth_error (renderTable lines) 1 = Some rendered /\
     List.length rendered = columnOffset (columnWidths lines) 2)
  /\ forall k cell,
       nth_error [str "LR"; str "0x08001234"] k = Some cell ->
       exists pre post,
         nth_error (renderTable lines) 1 = Some (pre ++ cell ++ post) /\
         List.length pre = columnOffset (columnWidths lines) k.
Proof.
  intros lines. split; [reflexivity|].
  exact (X9_columns_aligned lines 1 [str "LR"; str "0x08001234"] eq_refl).
Defined.

(** A path with a drive letter, as in the comment of [addr2Line]. *)
Lemma X11_addr2line_output_witness :
  Symbolizer.readOutput afterLastSlash
    (str "GcodeSuite::process_parsed_command(bool)" ++ [10%N]
     ++ str "E:/Source/marlin/gcode.cpp" ++ str ":" ++ str "339" ++ [10%N])
  = Some {| filePath := str "E:/Source/marlin/gcode.cpp";
            fileName := str "gcode.cpp";
            line := Num 339;
            function := str "GcodeSuite::process_parsed_command(bool)" |}.
Proof.
  exact (X11_addr2line_output afterLastSlash
           (str "GcodeSuite::process_parsed_command(bool)") [10%N]
           (str "E:/Source/marlin/gcode.cpp") (str "339") [10%N]
           eq_refl (or_introl eq_refl) eq_refl
           (fun E => ltac:(discriminate E)) eq_refl
           (fun E => ltac:(discriminate E))
           (or_intror (ex_intro _ [10%N]
              (ex_intro _ [] (conj (or_introl eq_refl) eq_refl))))).
Defined.

Lemma X12_single_line_unresolved_witness :
  ~ In 10%N (str "??") /\
  Symbolizer.readOutput afterLastSlash (str "??") = None.
Proof.
  assert (H : ~ In 10%N (str "??")).
  { intros H. repeat (destruct H as [H|H]; [discriminate H|]). exact H. }
  split; [exact H|].
  exact (X12_single_line_unresolved afterLastSlash (str "??") H).
Defined.

(** What [addr2line] prints for an address it does not know is a resolved
    lookup for the program. *)
Lemma X13_resolved_fields_witness :
  Symbolizer.readOutput afterLastSlash
    (str "??" ++ [10%N] ++ str "??:0" ++ [10%N])
  = Some {| filePath := str "??"; fileName := str "??"; line := Num 0;
            function := str "??" |} /\
  str "??" <> [] /\ str "??" <> [] /\
  forallb Symbolizer.notLineTerminator (str "??") = true /\
  Num 0 <> NaN.
Proof.
  split; [reflexivity|].
  exact (X13_resolved_fields afterLastSlash
           (str "??" ++ [10%N] ++ str "??:0" ++ [10%N])
           {| filePath := str "??"; fileName := str "??"; line := Num 0;
              function := str "??" |} eq_refl).
Defined.

Lemma X14_terminal_input_lines_witness :
  readMultilineInput [str "CFSR : 0x00010000"; str "LR : 0x1"] [] = None /\
  exists text,
    readMultilineInput
      ([str "CFSR : 0x00010000"; str "LR : 0x1"] ++ [] :: [str "late"]) []
    = Some text /\
    splitLines text = [str "CFSR : 0x00010000"; str "LR : 0x1"].
Proof.
  refine (X14_terminal_input_lines
            [str "CFSR : 0x00010000"; str "LR : 0x1"] [str "late"] _).
  intros l [<-|[<-|[]]]; (split; [intros E; discriminate E|]);
    intros H; repeat (destruct H as [H|H]; [discriminate H|]); exact H.
Defined.

(** The symbolizer process plugged into the run. *)
Example main_with_process :
  stdout
    (snd (main armv7m
            (Symbolizer.addr2Line sampleExec afterLastSlash
               (str "arm-none-eabi-addr2line") (str "./firmware.elf"))
            noExpo
            (str "LR : 0x0001C442") emptyConsole))
  = [ str "Register  Value       ";
      str "LR        0x0001c442  GcodeSuite::process()  gcode.cpp:339  ";
      str "";
      str "Backtrace  ";
      str "#          Function  Address  PC  File:Line  " ].
Proof. vm_compute. reflexivity. Qed.
